(** * Bouncy-Balls: the physics core of [src/balls.c]

    A shallow embedding of the collision and wall-reflection code of
    [balls.c] (moveBall, overlaps, norm, dot, bounce, bounceWall,
    renderBalls), and the properties of it that the specification states.

    Numbers.  The C code computes on [double] and [int].
    - [int] values (the radius, the screen constants) are modelled on [Z];
      the code performs only additions and subtractions of a radius with
      small constants on them, and a sum that leaves the range of [int] is
      undefined behaviour in C and outside this model.
    - [double] is an interface, [Double], with the operations the code
      uses.  Its instance [Double_binary64] is IEEE 754 binary64 (Rocq's
      primitive floats): every operation rounds to nearest-even as the
      machine does, and the definitions evaluate.  Its instance [Double_R]
      is exact real arithmetic, used to state what holds when rounding is
      ignored.  Theorems about control flow are proved for every
      instance. *)

From Stdlib Require Import ZArith List Lia Bool.
From Stdlib Require Import Reals Lra.
From Stdlib Require Import Floats.
From Stdlib Require Import QArith.
From stdpp Require Import base option list.

Set Default Proof Using "Type".

(** ** The arithmetic of [double] *)

Class Double (D : Type) : Type := {
  dadd : D -> D -> D;
  dsub : D -> D -> D;
  dmul : D -> D -> D;
  ddiv : D -> D -> D;
  dsqrt : D -> D;
  dlt : D -> D -> bool;        (* [<]; [a > b] is [b < a] *)
  of_int : Z -> D              (* conversion of an [int] to [double] *)
}.

Declare Scope double_scope.
Delimit Scope double_scope with D.
Infix "+" := dadd : double_scope.
Infix "-" := dsub : double_scope.
Infix "*" := dmul : double_scope.
Infix "/" := ddiv : double_scope.
Notation "a <? b" := (dlt a b) : double_scope.
Notation "a >? b" := (dlt b a) : double_scope.

(** [#define SCREEN_WIDTH 1200], [#define SCREEN_HEIGHT 1200] *)
Definition SCREEN_WIDTH : Z := 1200.
Definition SCREEN_HEIGHT : Z := 1200.

Section Physics.
Context {D : Type} `{Double D}.
Local Open Scope double_scope.

(** [typedef struct vec2 { double x; double y; } vec2;] *)
Record vec2 : Type := mkVec2 { x : D; y : D }.

(** [typedef struct Ball { int radius; vec2 pos; vec2 dir;
    int subspaces[BALL_CORNER_COUNT]; } Ball;] *)
Record Ball : Type := mkBall {
  radius : Z;
  pos : vec2;
  dir : vec2;
  subspaces : list Z
}.

Definition set_pos (a : Ball) (p : vec2) : Ball :=
  {| radius := radius a; pos := p; dir := dir a; subspaces := subspaces a |}.
Definition set_dir (a : Ball) (d : vec2) : Ball :=
  {| radius := radius a; pos := pos a; dir := d; subspaces := subspaces a |}.
Definition set_x (v : vec2) (d : D) : vec2 := {| x := d; y := y v |}.
Definition set_y (v : vec2) (d : D) : vec2 := {| x := x v; y := d |}.

(** [pow(a, 2)]: the square, as one correctly rounded product.  The
    [pow] of a C library need not round correctly: its result may differ
    from this product in the last bit. *)
Definition pow2 (a : D) : D := a * a.

(** [#define pyth(a, b) (sqrt(pow(a, 2) + pow(b, 2)))] *)
Definition pyth (a b : D) : D := dsqrt (pow2 a + pow2 b).

(** [void moveBall(Ball *ball)] *)
Definition moveBall (ball : Ball) : Ball :=
  let p1 := set_x (pos ball) (x (pos ball) + x (dir ball)) in
  let p2 := set_y p1 (y p1 + y (dir ball)) in
  set_pos ball p2.

(** [bool overlaps(Ball *a, Ball *b)] *)
Definition overlaps (a b : Ball) : bool :=
  let c := pyth (x (pos a) - x (pos b)) (y (pos a) - y (pos b)) in
  c <? of_int (radius a + radius b).

(** The local [magnitute] of [norm]. *)
Definition magnitude (v : vec2) : D := dsqrt (pow2 (x v) + pow2 (y v)).

(** [void norm(vec2* v)]: the vector is updated in place; the model
    returns the updated vector. *)
Definition norm (v : vec2) : vec2 :=
  let magnitute := magnitude v in
  let v1 := set_x v (x v / magnitute) in
  set_y v1 (y v1 / magnitute).

(** [double dot(vec2* v1, vec2* v2)] *)
Definition dot (v1 v2 : vec2) : D := x v1 * x v2 + y v1 * y v2.

(** [void bounce(Ball *a, Ball *b)], for two distinct balls: the model
    returns the two updated balls. *)
Definition bounce (a b : Ball) : Ball * Ball :=
  let n := {| x := x (pos b) - x (pos a); y := y (pos b) - y (pos a) |} in
  let n := norm n in
  let scalar_product := dot (dir a) n - dot (dir b) n in
  let da := set_x (dir a) (x (dir a) - scalar_product * x n) in
  let da := set_y da (y (dir a) - scalar_product * y n) in
  let db := set_x (dir b) (x (dir b) + scalar_product * x n) in
  let db := set_y db (y (dir b) + scalar_product * y n) in
  (set_dir a da, set_dir b db).

(** [void bounceWall(Ball *a)] *)
Definition bounceWall (a : Ball) : Ball :=
  let left := x (pos a) - of_int (radius a) in
  let right := x (pos a) + of_int (radius a) in
  let up := y (pos a) - of_int (radius a) in
  let down := y (pos a) + of_int (radius a) in
  (* Horizontal bounce *)
  let a :=
    if (left <? of_int 0) || (right >? of_int SCREEN_WIDTH) then
      let a := set_dir a (set_x (dir a) (x (dir a) * of_int (-1))) in
      if x (dir a) >? of_int 0 then
        set_pos a (set_x (pos a) (of_int (radius a + 1)))
      else
        set_pos a (set_x (pos a) (of_int (SCREEN_WIDTH - radius a - 1)))
    else a in
  (* Vertical bounce *)
  if (up <? of_int 0) || (down >? of_int SCREEN_HEIGHT) then
    let a := set_dir a (set_y (dir a) (y (dir a) * of_int (-1))) in
    if y (dir a) >? of_int 0 then
      set_pos a (set_y (pos a) (of_int (radius a + 1)))
    else
      set_pos a (set_y (pos a) (of_int (SCREEN_HEIGHT - radius a - 1)))
  else a.

(** *** The simulation step

    The array [Ball* balls[]] is a list of balls; the pointers of the
    array are pairwise distinct (every ball is allocated by its own call
    of [makeBall]), so an update of [balls[i]] is an update of the list
    at [i].  A read of [balls[i]] with [i] outside the list is undefined
    behaviour in C and [None] here.

    The calls that [renderBalls] makes are recorded, in order, as
    events; [SDL_SetRenderDrawColor] sets the colour that the next
    [drawBall] uses.  [drawBall] and the [printf] calls change no ball;
    they are events only. *)

(** A draw colour, as the arguments [r, g, b, a] of
    [SDL_SetRenderDrawColor]. *)
Definition color : Type := Z * Z * Z * Z.
Definition red : color := (255, 0, 0, 255)%Z.
Definition blue : color := (0, 0, 255, 255)%Z.

Inductive event : Type :=
| EOverlaps (i j : nat) (r : bool)   (* [overlaps(balls[i], balls[j])] returned [r] *)
| EBounce (i j : nat)                (* [bounce(balls[i], balls[j])] *)
| EDraw (i : nat) (c : color)        (* [drawBall(balls[i])] in colour [c] *)
| EPrint (i : nat)                   (* the [printf] calls for [balls[i]] *)
| EMove (i : nat)                    (* [moveBall(balls[i])] *)
| EBounceWall (i : nat).             (* [bounceWall(balls[i])] *)

(** The state a frame works on: the balls and the current draw colour
    of the renderer. *)
Record state : Type := mkState {
  balls : list Ball;
  draw_color : color
}.

(** [for (int j = 0; j < amnt; j++) { ... }], the inner loop of
    [renderBalls] for body [i], over the remaining indices [js]. *)
Fixpoint scan (i : nat) (js : list nat) (st : state) : option (state * list event) :=
  match js with
  | [] => Some (st, [])
  | j :: js' =>
      if decide (i = j) then scan i js' st            (* continue *)
      else
        a ← balls st !! i;
        b ← balls st !! j;
        if overlaps a b then
          let '(a', b') := bounce a b in
          Some (mkState (<[j := b']> (<[i := a']> (balls st))) red,
                [EOverlaps i j true; EBounce i j])    (* break *)
        else
          '(st', evs) ← scan i js' (mkState (balls st) blue);
          Some (st', EOverlaps i j false :: evs)
  end.

(** The body of the outer loop of [renderBalls] for body [i]. *)
Definition render_one (amnt i : nat) (st : state) : option (state * list event) :=
  '(st1, evs) ← scan i (seq 0 amnt) st;
  a ← balls st1 !! i;
  let a := moveBall a in
  let a := bounceWall a in
  Some (mkState (<[i := a]> (balls st1)) (draw_color st1),
        evs ++ [EDraw i (draw_color st1); EPrint i; EMove i; EBounceWall i]).

(** [for (int i = 0; i < amnt; i++) { ... }], over the remaining
    indices [idxs]. *)
Fixpoint render_from (amnt : nat) (idxs : list nat) (st : state) : option (state * list event) :=
  match idxs with
  | [] => Some (st, [])
  | i :: idxs' =>
      '(st1, evs1) ← render_one amnt i st;
      '(st2, evs2) ← render_from amnt idxs' st1;
      Some (st2, evs1 ++ evs2)
  end.

(** [void renderBalls(int amnt, Ball* balls[])] *)
Definition renderBalls (amnt : nat) (st : state) : option (state * list event) :=
  render_from amnt (seq 0 amnt) st.

(** *** Notions the statements use *)

(** The test of [bounceWall] on one axis: an edge [p - r] or [p + r]
    of the body lies outside [0 .. extent]. *)
Definition crosses (extent r : Z) (p : D) : bool :=
  (p - of_int r <? of_int 0) || (p + of_int r >? of_int extent).

(** What [bounceWall] does on one axis, as the pair of the new
    position and the new velocity on that axis. *)
Definition reflect_axis (extent r : Z) (p v : D) : D * D :=
  if crosses extent r p then
    let v' := v * of_int (-1) in
    (if v' >? of_int 0 then of_int (r + 1) else of_int (extent - r - 1), v')
  else (p, v).


(** The line of centres from [a] to [b], which [bounce] normalizes. *)
Definition centre_line (a b : Ball) : vec2 :=
  {| x := x (pos b) - x (pos a); y := y (pos b) - y (pos a) |}.

(** The impulse that [bounce] subtracts from the velocity of [a] and
    adds to the velocity of [b]: [scalar_product * n]. *)
Definition impulse (a b : Ball) : vec2 :=
  let n := norm (centre_line a b) in
  let scalar_product := dot (dir a) n - dot (dir b) n in
  {| x := scalar_product * x n; y := scalar_product * y n |}.

(** The sum of the two velocity vectors (the momentum of a pair of
    equal, unit masses). *)
Definition momentum (a b : Ball) : vec2 :=
  {| x := x (dir a) + x (dir b); y := y (dir a) + y (dir b) |}.

(** Twice the kinetic energy of a pair of unit masses. *)
Definition kinetic (a b : Ball) : D :=
  dot (dir a) (dir a) + dot (dir b) (dir b).

(** No two bodies of the collection overlap. *)
Definition no_overlap (bs : list Ball) : Prop :=
  forall i j a b, i <> j -> bs !! i = Some a -> bs !! j = Some b ->
    overlaps a b = false.

(** The indices [j <> i] below [n], in index order, and the events of
    testing body [i] against each of [js] without a hit. *)
Definition others (i n : nat) : list nat :=
  filter (fun j => j <> i) (seq 0 n).
Definition misses (i : nat) (js : list nat) : list event :=
  map (fun j => EOverlaps i j false) js.

(** [j] is the first index, other than [i], of a body that [i]
    overlaps. *)
Definition first_overlap (bs : list Ball) (i j : nat) : Prop :=
  j <> i /\
  (exists a b, bs !! i = Some a /\ bs !! j = Some b /\ overlaps a b = true) /\
  (forall k, (k < j)%nat -> k <> i ->
     exists a c, bs !! i = Some a /\ bs !! k = Some c /\ overlaps a c = false).

(** Body [i] overlaps no other body below [n]. *)
Definition overlaps_none (bs : list Ball) (i n : nat) : Prop :=
  forall k, (k < n)%nat -> k <> i ->
    exists a c, bs !! i = Some a /\ bs !! k = Some c /\ overlaps a c = false.

(** Body [i], which is [a], does not overlap body [k], if [k] is
    another body. *)
Definition miss (bs : list Ball) (i : nat) (a : Ball) (k : nat) : Prop :=
  k <> i -> exists c, bs !! k = Some c /\ overlaps a c = false.

(** The draw colour after tests of the bodies [js] that all missed:
    blue once a test was made. *)
Definition color_after (js : list nat) (c : color) : color :=
  match js with [] => c | _ => blue end.

(** Integration followed by wall reflection, what a frame does to a
    body that takes part in no collision. *)
Definition advance (a : Ball) : Ball := bounceWall (moveBall a).

(** The number of calls of the resolver among the events. *)
Fixpoint count_bounces (evs : list event) : nat :=
  match evs with
  | [] => 0
  | EBounce _ _ :: evs' => S (count_bounces evs')
  | _ :: evs' => count_bounces evs'
  end.

(** What the frame does for body [i], after the words of the
    specification: the bodies [j <> i] are tested in index order; at the
    first one that [i] overlaps the resolver is called on [(i, j)] and the
    tests stop; then body [i] is drawn (and logged), moved and
    reflected.  [out] is the state and the events that result. *)
Definition body_outcome (amnt i : nat) (st : state) (out : state * list event) : Prop :=
  exists a, balls st !! i = Some a /\
    ((exists j b,
         (j < amnt)%nat /\ first_overlap (balls st) i j /\ balls st !! j = Some b /\
         out = (mkState (<[i := advance (fst (bounce a b))]>
                           (<[j := snd (bounce a b)]>
                              (<[i := fst (bounce a b)]> (balls st)))) red,
                misses i (others i j)
                  ++ [EOverlaps i j true; EBounce i j;
                      EDraw i red; EPrint i; EMove i; EBounceWall i]))
     \/ (overlaps_none (balls st) i amnt /\
         out = (mkState (<[i := advance a]> (balls st))
                        (color_after (others i amnt) (draw_color st)),
                misses i (others i amnt)
                  ++ [EDraw i (color_after (others i amnt) (draw_color st));
                      EPrint i; EMove i; EBounceWall i]))).

(** Body [j] as body [i] finds it when its turn comes in a frame
    without collisions: already advanced when [j < i]. *)
Definition as_seen_by (i j : nat) (b : Ball) : Ball :=
  if decide (j < i)%nat then advance b else b.

(** No body overlaps another one when its turn comes: the bodies
    before it are seen advanced, the ones after it as the frame found
    them. *)
Definition quiet (bs : list Ball) : Prop :=
  forall i j a b, i <> j -> bs !! i = Some a -> bs !! j = Some b ->
    overlaps a (as_seen_by i j b) = false.

End Physics.

Arguments vec2 D : clear implicits.
Arguments Ball D : clear implicits.
Arguments state D : clear implicits.

(** ** IEEE 754 binary64 *)

(** An [int] converted to [double]: exact for every 32-bit value. *)
Definition int_to_double (z : Z) : float :=
  if (z <? 0)%Z then PrimFloat.opp (PrimFloat.of_uint63 (Uint63.of_Z (- z)))
  else PrimFloat.of_uint63 (Uint63.of_Z z).

#[export] Instance Double_binary64 : Double float := {
  dadd := PrimFloat.add;
  dsub := PrimFloat.sub;
  dmul := PrimFloat.mul;
  ddiv := PrimFloat.div;
  dsqrt := PrimFloat.sqrt;
  dlt := PrimFloat.ltb;
  of_int := int_to_double
}.

(** ** Exact real arithmetic *)

Definition Rltb (a b : R) : bool := if Rlt_dec a b then true else false.

#[export] Instance Double_R : Double R := {
  dadd := Rplus;
  dsub := Rminus;
  dmul := Rmult;
  ddiv := Rdiv;
  dsqrt := R_sqrt.sqrt;
  dlt := Rltb;
  of_int := IZR
}.

(** ** The spec's [normalize]

    A second definition, after the words of the specification:
    [normalize] fails with a division by zero when the magnitude is zero
    ([None]) and divides both components by the magnitude otherwise. *)
Definition normalize_spec (v : vec2 float) : option (vec2 float) :=
  if PrimFloat.eqb (magnitude v) 0%float then None
  else Some {| x := PrimFloat.div (x v) (magnitude v);
               y := PrimFloat.div (y v) (magnitude v) |}.


(** A [double] that is not a number or is infinite. *)
Definition not_finite (d : float) : bool :=
  PrimFloat.is_nan d || PrimFloat.is_infinity d.

(** ** Sample bodies *)

(** A ball with integer coordinates and velocity, as [main] creates
    them. *)
Definition ball_at (r px py vx vy : Z) : Ball float :=
  mkBall r (mkVec2 (of_int px) (of_int py)) (mkVec2 (of_int vx) (of_int vy)) [].

(** The head-on pair of the specification. *)
Definition head_on_a : Ball float := ball_at 5 0 0 1 0.
Definition head_on_b : Ball float := ball_at 5 8 0 (-1) 0.

(** Two overlapping balls on a slanted line of centres. *)
Definition slanted_a : Ball float := ball_at 5 100 100 2 0.
Definition slanted_b : Ball float := ball_at 5 101 102 (-1) 0.

(** Two overlapping balls on a diagonal, the second at rest. *)
Definition diagonal_a : Ball float := ball_at 5 100 100 1 0.
Definition diagonal_b : Ball float := ball_at 5 101 101 0 0.

(** Two balls that touch without overlapping (distance 10, radii 5 and
    5), the first moving towards the second. *)
Definition touching : state float :=
  mkState [ball_at 5 100 100 4 0; ball_at 5 110 100 0 0] (0, 0, 0, 255)%Z.

(** Two balls far from each other. *)
Definition apart : list (Ball float) :=
  [ball_at 5 100 100 4 0; ball_at 5 300 100 0 0].

(** A ball over the right wall, and one over the left wall with no
    horizontal velocity. *)
Definition at_right_wall : Ball float := ball_at 5 1198 600 3 0.
Definition at_left_wall_at_rest : Ball float := ball_at 5 3 600 0 2.

(** A vector of magnitude 5. *)
Definition three_four : vec2 float := mkVec2 3%float 4%float.

(** The same head-on pair in exact arithmetic. *)
Definition exact_a : Ball R := mkBall 5%Z (mkVec2 0%R 0%R) (mkVec2 1%R 0%R) [].
Definition exact_b : Ball R := mkBall 5%Z (mkVec2 8%R 0%R) (mkVec2 (-1)%R 0%R) [].

(** ** Further code of [balls.c] *)

(** *** Operations on [int]

    In the code below [int] values are computed, not only compared, so
    the range of [int] is checked: an operation whose result is no [int]
    is undefined behaviour, [None]. *)

Definition INT_MIN : Z := - 2 ^ 31.
Definition INT_MAX : Z := 2 ^ 31 - 1.

Definition int_ok (z : Z) : bool := ((INT_MIN <=? z) && (z <=? INT_MAX))%Z.

(** The result [z] of an addition, subtraction or multiplication. *)
Definition int_of (z : Z) : option Z := if int_ok z then Some z else None.

(** [e << 1]: undefined for a negative [e], and when [2 * e] is no
    [int]. *)
Definition shl1 (e : Z) : option Z :=
  if (0 <=? e)%Z then int_of (Z.shiftl e 1) else None.

(** *** [drawBall]: the midpoint circle *)

(** A pixel, as the arguments [x, y] of [SDL_RenderDrawPoint]. *)
Definition point : Type := Z * Z.

(** The arguments of the eight calls of [SDL_RenderDrawPoint] of one
    iteration. *)
Definition octants (x0 y0 x y : Z) : list point :=
  [(x0 + x, y0 + y); (x0 + y, y0 + x); (x0 - y, y0 + x); (x0 - x, y0 + y);
   (x0 - x, y0 - y); (x0 - y, y0 - x); (x0 + y, y0 - x); (x0 + x, y0 - y)]%Z.

(** The eight calls: every argument has to be an [int]. *)
Definition draw_octants (x0 y0 x y : Z) : option (list point) :=
  if forallb (fun p => int_ok (fst p) && int_ok (snd p)) (octants x0 y0 x y)
  then Some (octants x0 y0 x y) else None.

(** [while (x >= y) { ... }] of [drawBall], with the points it draws, in
    order.  The loop is run for at most [fuel] iterations; [None] is a
    loop that has not ended by then, or undefined behaviour. *)
Fixpoint drawBall_loop (fuel : nat) (radius x0 y0 x y dx dy err : Z)
  : option (list point) :=
  if (x >=? y)%Z then
    match fuel with
    | O => None
    | S fuel' =>
        pts ← draw_octants x0 y0 x y;
        '(y, err, dy) ←
          (if (err <=? 0)%Z
           then y' ← int_of (y + 1);
                err' ← int_of (err + dy);
                dy' ← int_of (dy + 2);
                Some (y', err', dy')
           else Some (y, err, dy));
        '(x, dx, err) ←
          (if (err >? 0)%Z
           then x' ← int_of (x - 1);
                dx' ← int_of (dx + 2);
                r2 ← shl1 radius;
                d ← int_of (dx' - r2);
                err' ← int_of (err + d);
                Some (x', dx', err')
           else Some (x, dx, err));
        rest ← drawBall_loop fuel' radius x0 y0 x y dx dy err;
        Some (pts ++ rest)
    end
  else Some [].

(** The points [drawBall] draws for a ball of radius [radius] whose
    centre pixel is [(x0, y0)], from the initial values of its locals. *)
Definition drawBall_at (fuel : nat) (radius x0 y0 : Z) : option (list point) :=
  x ← int_of (radius - 1);
  let y := 0%Z in
  let dx := 1%Z in
  let dy := 1%Z in
  r2 ← shl1 radius;
  err ← int_of (dx - r2);
  drawBall_loop fuel radius x0 y0 x y dx dy err.

(** A [double] converted to [int]: the value is truncated toward zero;
    the conversion of a NaN, of an infinity or of a value whose integral
    part is no [int] is undefined behaviour, [None]. *)
Definition double_to_int (d : float) : option Z :=
  match Prim2SF d with
  | S754_zero _ => Some 0%Z
  | S754_finite s m e =>
      let q := match e with
               | Z0 => Zpos m
               | Zpos _ => (Zpos m * 2 ^ e)%Z
               | Zneg k => (Zpos m / 2 ^ Zpos k)%Z
               end in
      int_of (if s then (- q)%Z else q)
  | _ => None
  end.

(** [void drawBall(Ball* ball)]: the points drawn, in order.  The loop
    is given [radius] iterations. *)
Definition drawBall (ball : Ball float) : option (list point) :=
  x0 ← double_to_int (x (pos ball));
  y0 ← double_to_int (y (pos ball));
  drawBall_at (Z.to_nat (radius ball)) (radius ball) x0 y0.

(** A point of the outline of the disc of radius [r] around [(x0, y0)]:
    inside the circle of radius [r], not inside the one of radius
    [r - 1]. *)
Definition on_outline (r x0 y0 : Z) (p : point) : Prop :=
  let u := (fst p - x0)%Z in
  let v := (snd p - y0)%Z in
  ((r - 1) * (r - 1) <= u * u + v * v <= r * r)%Z.

(** The pixels within [r] of [(x0, y0)] have [int] coordinates. *)
Definition room (r x0 y0 : Z) : Prop :=
  (INT_MIN <= x0 - r /\ x0 + r <= INT_MAX /\
   INT_MIN <= y0 - r /\ y0 + r <= INT_MAX)%Z.

(** The mirror images of a point in the vertical and the horizontal
    line through [(x0, y0)] and in the diagonal through it. *)
Definition mirror_x (x0 : Z) (p : point) : point := (2 * x0 - fst p, snd p)%Z.
Definition mirror_y (y0 : Z) (p : point) : point := (fst p, 2 * y0 - snd p)%Z.
Definition transpose (x0 y0 : Z) (p : point) : point :=
  (x0 + (snd p - y0), y0 + (fst p - x0))%Z.

(** *** [main]: the size of a subspace *)

(** [#define BALLS_PER_SUBSPACE 4] *)
Definition BALLS_PER_SUBSPACE : Z := 4.

(** How [while (SCREEN_WIDTH % subspace_size_x) subspace_size_x++;]
    stands after at most [fuel] increments: ended with a size, stopped
    by a division by zero or by an increment of [INT_MAX] (both
    undefined behaviour), or still running. *)
Inductive sizing : Type :=
| Fits (size : Z)
| DivisionByZero
| Overflow
| StillRunning (size : Z).

(** The loop, for a positive [extent]. *)
Fixpoint fit_subspace (fuel : nat) (extent size : Z) : sizing :=
  if (size =? 0)%Z then DivisionByZero
  else if (Z.rem extent size =? 0)%Z then Fits size
  else match fuel with
       | O => StillRunning size
       | S fuel' =>
           match int_of (size + 1) with
           | Some size' => fit_subspace fuel' extent size'
           | None => Overflow
           end
       end.

(** [radius * 2 * BALLS_PER_SUBSPACE] *)
Definition initial_size (radius : Z) : option Z :=
  r2 ← int_of (radius * 2);
  int_of (r2 * BALLS_PER_SUBSPACE).

(** [subspace_size_x] as [main] computes it from [radius]. *)
Definition subspace_size_x (fuel : nat) (radius : Z) : sizing :=
  match initial_size radius with
  | Some size => fit_subspace fuel SCREEN_WIDTH size
  | None => Overflow
  end.

(** [subspace_size_y] as [main] computes it from [radius]. *)
Definition subspace_size_y (fuel : nat) (radius : Z) : sizing :=
  match initial_size radius with
  | Some size => fit_subspace fuel SCREEN_HEIGHT size
  | None => Overflow
  end.

(** [subspace_count = (SCREEN_WIDTH / subspace_size_x) *
    (SCREEN_HEIGHT / subspace_size_y)] *)
Definition subspace_count (size_x size_y : Z) : Z :=
  (Z.quot SCREEN_WIDTH size_x * Z.quot SCREEN_HEIGHT size_y)%Z.

(** *** [main]: the frames *)

(** The colour [main] sets before it clears the screen:
    [SDL_SetRenderDrawColor(ren, 0, 0, 0, 255)]. *)
Definition black : color := (0, 0, 0, 255)%Z.

Section Frames.
Context {D : Type} `{Double D}.

(** One turn of [while (running)] on the balls: the draw colour is set
    to black, the screen is cleared and [renderBalls] is called.  The
    polling of events, the presentation and the delay change no ball. *)
Definition frame (amnt : nat) (bs : list (Ball D)) : option (list (Ball D) * list event) :=
  '(st, evs) ← renderBalls amnt (mkState bs black);
  Some (balls st, evs).

(** [n] turns of [while (running)], with the events of all of them. *)
Fixpoint frames (n amnt : nat) (bs : list (Ball D)) : option (list (Ball D) * list event) :=
  match n with
  | O => Some (bs, [])
  | S n' =>
      '(bs1, evs1) ← frame amnt bs;
      '(bs2, evs2) ← frames n' amnt bs1;
      Some (bs2, evs1 ++ evs2)
  end.

(** The bodies that the events move, draw and reflect, in order. *)
Definition moved (evs : list event) : list nat :=
  omap (fun e => match e with EMove i => Some i | _ => None end) evs.
Definition drawn (evs : list event) : list (nat * color) :=
  omap (fun e => match e with EDraw i c => Some (i, c) | _ => None end) evs.
Definition reflected (evs : list event) : list nat :=
  omap (fun e => match e with EBounceWall i => Some i | _ => None end) evs.

End Frames.

(** No edge of the ball lies outside the arena. *)
Definition in_arena (a : Ball float) : bool :=
  negb (crosses SCREEN_WIDTH (radius a) (x (pos a)))
  && negb (crosses SCREEN_HEIGHT (radius a) (y (pos a))).

(** A ball whose position is not a number. *)
Definition lost (a : Ball float) : Prop :=
  x (pos a) = PrimFloat.nan /\ y (pos a) = PrimFloat.nan.

(** A ball at the centre of [head_on_a], and [head_on_a] after its
    collision with it has been resolved. *)
Definition same_centre : Ball float := ball_at 5 0 0 (-1) 0.
Definition wrecked : Ball float := fst (bounce head_on_a same_centre).

(** ** The overlap test of the specification *)


(** The exact value of a finite [double], a rational number (0 for an
    infinity and for what is not a number). *)
Definition exact (d : float) : Q :=
  match Prim2SF d with
  | S754_finite s m e =>
      let q := (inject_Z (Zpos m) * Qpower (2 # 1) e)%Q in
      if s then (- q)%Q else q
  | _ => 0%Q
  end.


(** Two overlapping balls with velocities of the largest magnitude
    that is a power of two. *)
Definition fast_a : Ball float :=
  mkBall 5%Z (mkVec2 0%float 0%float) (mkVec2 0x1p1023%float 0%float) [].
Definition fast_b : Ball float :=
  mkBall 5%Z (mkVec2 8%float 0%float) (mkVec2 (-0x1p1023)%float 0%float) [].

(** ** The arena, tested positively *)

(** A [double] that is a number and no infinity. *)
Definition SFfinite (f : spec_float) : bool :=
  match f with
  | S754_zero _ | S754_finite _ _ _ => true
  | _ => false
  end.
Definition finite (d : float) : bool := SFfinite (Prim2SF d).

(** A ball whose position and velocity are finite. *)
Definition finite_ball (a : Ball float) : bool :=
  finite (x (pos a)) && finite (y (pos a))
  && finite (x (dir a)) && finite (y (dir a)).

(** Both edges of a ball of radius [r] at the coordinate [p], as
    [bounceWall] computes them, lie in [0 .. extent]: the two tests of
    [crosses] turned round, [0 <= left] and [right <= extent].  Unlike
    the negation of [crosses], this is false of a coordinate that is
    not a number. *)
Definition confined (extent r : Z) (p : float) : bool :=
  PrimFloat.leb (int_to_double 0) (PrimFloat.sub p (int_to_double r))
  && PrimFloat.leb (PrimFloat.add p (int_to_double r)) (int_to_double extent).

(** The ball lies inside the arena. *)
Definition inside (a : Ball float) : bool :=
  confined SCREEN_WIDTH (radius a) (x (pos a))
  && confined SCREEN_HEIGHT (radius a) (y (pos a)).

(** On each axis the ball lies inside the arena, or its coordinate is
    not a number. *)
Definition inside_or_lost (a : Ball float) : Prop :=
  (x (pos a) = PrimFloat.nan \/ confined SCREEN_WIDTH (radius a) (x (pos a)) = true) /\
  (y (pos a) = PrimFloat.nan \/ confined SCREEN_HEIGHT (radius a) (y (pos a)) = true).

(** A ball over the right wall and a ball far from it and from the
    walls. *)
Definition wall_and_free : list (Ball float) :=
  [at_right_wall; ball_at 5 100 100 4 0].

(** Two balls that [main] can create at one pixel. *)
Definition at_one_pixel : list (Ball float) :=
  [ball_at 5 100 100 1 0; ball_at 5 100 100 0 1].

(** * Facts about binary64 arithmetic

    Derived from the specification of the primitive operations
    ([Prim2SF] and the [_spec] statements of the standard library). *)
Module Binary64.
Local Open Scope float_scope.

Lemma SFcompare_antisym (f1 f2 : spec_float) :
  SFcompare f2 f1 = option_map CompOpp (SFcompare f1 f2).
Proof.
  destruct f1 as [s1|s1| |s1 m1 e1], f2 as [s2|s2| |s2 m2 e2]; simpl;
    try reflexivity;
    try (destruct s1; reflexivity); try (destruct s2; reflexivity);
    try (destruct s1, s2; reflexivity).
  destruct s1, s2; simpl; try reflexivity;
    rewrite (Z.compare_antisym e1 e2);
    destruct (e1 ?= e2)%Z; simpl; try reflexivity;
    rewrite (Pos.compare_cont_antisym m1 m2 Eq); simpl;
    try rewrite CompOpp_involutive; reflexivity.
Qed.

(** [<] is asymmetric, also on NaN and the zeros. *)
Lemma ltb_asym (a b : float) : (a <? b) = true -> (b <? a) = false.
Proof.
  rewrite !FloatAxioms.ltb_spec. unfold SFltb.
  rewrite (SFcompare_antisym (Prim2SF a) (Prim2SF b)).
  destruct (SFcompare (Prim2SF a) (Prim2SF b)) as [[]|]; simpl; congruence.
Qed.



(** The doubles that compare equal to zero are [+0] and [-0]. *)
Lemma eqb_zero_inv (v : float) : (v =? 0) = true -> v = 0 \/ v = -0.
Proof.
  rewrite FloatAxioms.eqb_spec. intros E.
  rewrite <- (SF2Prim_Prim2SF v).
  destruct (Prim2SF v) as [s|s| |s m e]; simpl in E.
  - destruct s; [right|left]; reflexivity.
  - destruct s; discriminate.
  - discriminate.
  - destruct s; discriminate.
Qed.

(** *** Multiplication by [-1] is negation *)

Lemma digits2_shift52 m :
  digits2_pos (m * 4503599627370496) = (digits2_pos m + 52)%positive.
Proof. rewrite Pos.mul_comm. cbv [Pos.mul]. cbn [digits2_pos]. lia. Qed.

Lemma round_shift52 s m e :
  bounded prec emax m e = true ->
  binary_round_aux prec emax s (Zpos (m * 4503599627370496)) (e + -52) loc_Exact
  = S754_finite s m e.
Proof.
  unfold bounded, canonical_mantissa. intros Hb.
  apply andb_prop in Hb. destruct Hb as [Hc He]. apply Z.eqb_eq in Hc.
  unfold binary_round_aux, shr_fexp. cbn [Zdigits2 shr_record_of_loc].
  rewrite digits2_shift52.
  replace (Z.pos (digits2_pos m + 52) + (e + -52))%Z
    with (Z.pos (digits2_pos m) + e)%Z by lia.
  rewrite Hc. replace (e - (e + -52))%Z with 52%Z by lia.
  rewrite Pos.mul_comm. cbv [Pos.mul]. cbn [shr SpecFloat.iter_pos shr_1 orb].
  cbn [shr_m loc_of_shr_record round_nearest_even Zdigits2 shr_record_of_loc].
  replace (e + -52 + 52)%Z with e by lia.
  rewrite Hc, Z.sub_diag. cbn [shr shr_m]. rewrite He. reflexivity.
Qed.

Lemma mul_m1 (v : float) : v * (-1) = - v.
Proof.
  apply Prim2SF_inj. rewrite FloatAxioms.mul_spec, FloatAxioms.opp_spec.
  pose proof (Prim2SF_valid v) as Hv.
  change (Prim2SF (-1)) with (S754_finite true 4503599627370496 (-52)).
  destruct (Prim2SF v) as [s|s| |s m e]; cbn [SF64mul SFmul SFopp];
    rewrite ?xorb_true_r; try reflexivity.
  apply round_shift52. exact Hv.
Qed.

(** *** Subtraction and squares *)




Lemma SFmul_opp_opp (f : spec_float) :
  SF64mul (SFopp f) (SFopp f) = SF64mul f f.
Proof.
  destruct f as [s|s| |s m e]; cbn; try reflexivity; destruct s; reflexivity.
Qed.



(** *** Division by a zero, and NaN *)

Lemma not_finite_spec (d : float) :
  (is_nan d || is_infinity d = true) <->
  (Prim2SF d = S754_nan \/ exists s, Prim2SF d = S754_infinity s).
Proof.
  unfold is_nan, is_infinity. rewrite !FloatAxioms.eqb_spec, FloatAxioms.abs_spec.
  change (Prim2SF infinity) with (S754_infinity false).
  destruct (Prim2SF d) as [s|s| |s m e]; unfold SFeqb; cbn;
    rewrite ?Z.compare_refl, ?Pos.compare_cont_refl;
    try destruct s; cbn; split; intros Hx;
    try reflexivity; try discriminate;
    try (destruct Hx as [E|[t E]]; discriminate); eauto.
Qed.

Lemma div_zero_not_finite (a z : float) :
  (z =? 0) = true -> is_nan (a / z) || is_infinity (a / z) = true.
Proof.
  intros Hz. apply not_finite_spec. rewrite FloatAxioms.div_spec.
  rewrite FloatAxioms.eqb_spec in Hz. change (Prim2SF 0) with (S754_zero false) in Hz.
  destruct (Prim2SF z) as [s|s| |s m e]; cbn in Hz;
    try discriminate; try (destruct s; discriminate).
  destruct (Prim2SF a) as [t|t| |t m e]; cbn; eauto.
Qed.

Lemma sub_diag (p : float) : p - p = 0 \/ p - p = nan.
Proof.
  assert (Prim2SF (p - p) = S754_zero false \/ Prim2SF (p - p) = S754_nan) as [E|E].
  { rewrite FloatAxioms.sub_spec. pose proof (Prim2SF_valid p) as Hv.
    destruct (Prim2SF p) as [s|s| |s m e]; cbn [SF64sub SFsub].
    - left. destruct s; reflexivity.
    - right. destruct s; reflexivity.
    - right. reflexivity.
    - left. unfold SF64sub, SFsub. rewrite Z.sub_diag. reflexivity. }
  - left. apply Prim2SF_inj. rewrite E. reflexivity.
  - right. apply Prim2SF_inj. rewrite E. reflexivity.
Qed.


Lemma mul_nan_r (a : float) : a * nan = nan.
Proof.
  apply Prim2SF_inj. rewrite FloatAxioms.mul_spec. change (Prim2SF nan) with S754_nan.
  destruct (Prim2SF a); reflexivity.
Qed.

Lemma add_nan_r (a : float) : a + nan = nan.
Proof.
  apply Prim2SF_inj. rewrite FloatAxioms.add_spec. change (Prim2SF nan) with S754_nan.
  destruct (Prim2SF a); reflexivity.
Qed.

Lemma sub_nan_r (a : float) : a - nan = nan.
Proof.
  apply Prim2SF_inj. rewrite FloatAxioms.sub_spec. change (Prim2SF nan) with S754_nan.
  destruct (Prim2SF a); reflexivity.
Qed.
End Binary64.

(** * The wall reflector *)

Section WallFacts.
Context {D : Type} `{Double D}.

(** [bounceWall] treats the two axes by the same rule, each from the
    radius and from the position and velocity on that axis alone. *)
Lemma bounceWall_axes (a : Ball D) :
  (x (pos (bounceWall a)), x (dir (bounceWall a)))
    = reflect_axis SCREEN_WIDTH (radius a) (x (pos a)) (x (dir a)) /\
  (y (pos (bounceWall a)), y (dir (bounceWall a)))
    = reflect_axis SCREEN_HEIGHT (radius a) (y (pos a)) (y (dir a)) /\
  radius (bounceWall a) = radius a /\
  subspaces (bounceWall a) = subspaces a.
Proof.
  destruct a as [r [px py] [vx vy] ss].
  unfold bounceWall, reflect_axis, crosses; cbn.
  repeat match goal with
         | |- context [if ?c then _ else _] =>
             let E := fresh "E" in destruct c eqn:E; cbn in *
         end;
    repeat split; first [reflexivity | congruence].
Qed.
End WallFacts.

(** From the decomposition [Hx] of [bounceWall] on an axis that is
    crossed ([Hc]): the new position [Hp], with its test on the new
    velocity, and the new velocity [Hv]. *)
Ltac axis_crossed Hx Hc :=
  unfold reflect_axis in Hx; rewrite Hc in Hx; cbv zeta in Hx;
  let Hp := fresh "Hp" in let Hv := fresh "Hv" in
  injection Hx as Hp Hv; rewrite <- Hv in Hp;
  change (@dlt float Double_binary64) with PrimFloat.ltb in Hp;
  change (@dmul float Double_binary64) with PrimFloat.mul in Hv;
  change (@of_int float Double_binary64 0) with 0%float in Hp;
  change (int_to_double 0) with 0%float in Hp;
  change (@of_int float Double_binary64 (-1)) with (-1)%float in Hv;
  change (int_to_double (-1)) with (-1)%float in Hv.

(** C3.  A body with an edge across an arena boundary on an axis gets
    the velocity component on that axis negated, and its centre on that
    axis is then set by the sign of the new velocity: to [radius + 1] when
    it is positive, to [extent - radius - 1] when it is negative.  Each
    axis is treated from its own position and velocity only
    ([reflect_axis]).  The body at [x = 1198] with radius 5 and velocity
    [+3] ends with velocity [-3] at [x = 1194], whatever its [y] part. *)
Theorem bounceWall_reflects_and_clamps :
  (forall a : Ball float,
     (crosses SCREEN_WIDTH (radius a) (x (pos a)) = true ->
        x (dir (bounceWall a)) = PrimFloat.opp (x (dir a)) /\
        (PrimFloat.ltb 0 (x (dir (bounceWall a))) = true ->
           x (pos (bounceWall a)) = of_int (radius a + 1)) /\
        (PrimFloat.ltb (x (dir (bounceWall a))) 0 = true ->
           x (pos (bounceWall a)) = of_int (SCREEN_WIDTH - radius a - 1))) /\
     (crosses SCREEN_HEIGHT (radius a) (y (pos a)) = true ->
        y (dir (bounceWall a)) = PrimFloat.opp (y (dir a)) /\
        (PrimFloat.ltb 0 (y (dir (bounceWall a))) = true ->
           y (pos (bounceWall a)) = of_int (radius a + 1)) /\
        (PrimFloat.ltb (y (dir (bounceWall a))) 0 = true ->
           y (pos (bounceWall a)) = of_int (SCREEN_HEIGHT - radius a - 1))) /\
     (x (pos (bounceWall a)), x (dir (bounceWall a)))
       = reflect_axis SCREEN_WIDTH (radius a) (x (pos a)) (x (dir a)) /\
     (y (pos (bounceWall a)), y (dir (bounceWall a)))
       = reflect_axis SCREEN_HEIGHT (radius a) (y (pos a)) (y (dir a))) /\
  (forall (py vy : float) (ss : list Z),
     let a := mkBall 5%Z (mkVec2 1198%float py) (mkVec2 3%float vy) ss in
     crosses SCREEN_WIDTH (radius a) (x (pos a)) = true /\
     x (dir (bounceWall a)) = (-3)%float /\
     x (pos (bounceWall a)) = 1194%float).
Proof.
  split.
  - intros a.
    destruct (bounceWall_axes a) as (Hx & Hy & _ & _).
    split; [|split; [|split; assumption]].
    + intros Hc. axis_crossed Hx Hc.
      split; [rewrite Hv; apply Binary64.mul_m1|]. split.
      * intros Hpos. rewrite Hpos in Hp. exact Hp.
      * intros Hneg. rewrite (Binary64.ltb_asym _ _ Hneg) in Hp. exact Hp.
    + intros Hc. axis_crossed Hy Hc.
      split; [rewrite Hv; apply Binary64.mul_m1|]. split.
      * intros Hpos. rewrite Hpos in Hp. exact Hp.
      * intros Hneg. rewrite (Binary64.ltb_asym _ _ Hneg) in Hp. exact Hp.
  - intros py vy ss a.
    destruct (bounceWall_axes a) as (Hx & _).
    change (reflect_axis SCREEN_WIDTH (radius a) (x (pos a)) (x (dir a)))
      with (1194%float, (-3)%float) in Hx.
    injection Hx as Hp Hv. repeat split; assumption.
Qed.

Lemma bounceWall_reflects_and_clamps_witness :
  crosses SCREEN_WIDTH (radius at_right_wall) (x (pos at_right_wall)) = true /\
  x (dir (bounceWall at_right_wall)) = (-3)%float /\
  x (pos (bounceWall at_right_wall)) = 1194%float.
Proof.
  assert (crosses SCREEN_WIDTH (radius at_right_wall) (x (pos at_right_wall)) = true)
    as Hc by reflexivity.
  destruct (proj1 bounceWall_reflects_and_clamps at_right_wall) as (Hx & _).
  destruct (Hx Hc) as (Hv & _ & Hfar).
  split; [exact Hc | split; [exact Hv | apply Hfar; rewrite Hv; reflexivity]].
Defined.

(** C10.  A body with an edge across an arena boundary on an axis and
    with a zero velocity component on that axis ([+0] or [-0]) keeps a
    zero velocity on that axis, and its centre on that axis is set to the
    far boundary, [extent - radius - 1], whichever boundary was crossed. *)
Theorem bounceWall_zero_velocity (a : Ball float) :
  (crosses SCREEN_WIDTH (radius a) (x (pos a)) = true ->
   PrimFloat.eqb (x (dir a)) 0 = true ->
     PrimFloat.eqb (x (dir (bounceWall a))) 0 = true /\
     x (pos (bounceWall a)) = of_int (SCREEN_WIDTH - radius a - 1)) /\
  (crosses SCREEN_HEIGHT (radius a) (y (pos a)) = true ->
   PrimFloat.eqb (y (dir a)) 0 = true ->
     PrimFloat.eqb (y (dir (bounceWall a))) 0 = true /\
     y (pos (bounceWall a)) = of_int (SCREEN_HEIGHT - radius a - 1)).
Proof.
  destruct (bounceWall_axes a) as (Hx & Hy & _ & _).
  split; intros Hc Hz.
  - axis_crossed Hx Hc. rewrite Hp, Hv.
    destruct (Binary64.eqb_zero_inv _ Hz) as [-> | ->]; split; reflexivity.
  - axis_crossed Hy Hc. rewrite Hp, Hv.
    destruct (Binary64.eqb_zero_inv _ Hz) as [-> | ->]; split; reflexivity.
Qed.

Lemma bounceWall_zero_velocity_witness :
  PrimFloat.ltb (PrimFloat.sub (x (pos at_left_wall_at_rest))
                   (of_int (radius at_left_wall_at_rest))) 0 = true /\
  PrimFloat.eqb (x (dir (bounceWall at_left_wall_at_rest))) 0 = true /\
  x (pos (bounceWall at_left_wall_at_rest)) = 1194%float.
Proof.
  split; [reflexivity|].
  apply (proj1 (bounceWall_zero_velocity at_left_wall_at_rest)); reflexivity.
Defined.

(** * The collision resolver *)

(** C7.  [bounce] changes only the two velocity vectors: the position,
    the radius and the subspace indices of both balls are those it was
    given, for every pair of balls (with distinct centres or not) and in
    every arithmetic. *)
Theorem bounce_changes_only_velocity {D : Type} `{Double D} (a b : Ball D) :
  pos (fst (bounce a b)) = pos a /\ radius (fst (bounce a b)) = radius a /\
  subspaces (fst (bounce a b)) = subspaces a /\
  pos (snd (bounce a b)) = pos b /\ radius (snd (bounce a b)) = radius b /\
  subspaces (snd (bounce a b)) = subspaces b /\
  bounce a b = (set_dir a (dir (fst (bounce a b))),
                set_dir b (dir (snd (bounce a b)))).
Proof. repeat split. Qed.

(** C5.  For [a] at (0,0) with velocity (1,0) and [b] at (8,0) with
    velocity (-1,0), both of radius 5, [bounce] gives [a] the velocity
    (-1,0) and [b] the velocity (1,0): the two velocities are swapped, and
    the kinetic energy of the pair is what it was. *)
Theorem bounce_head_on :
  dir (fst (bounce head_on_a head_on_b)) = mkVec2 (-1)%float 0%float /\
  dir (snd (bounce head_on_a head_on_b)) = mkVec2 1%float 0%float /\
  dir (fst (bounce head_on_a head_on_b)) = dir head_on_b /\
  dir (snd (bounce head_on_a head_on_b)) = dir head_on_a /\
  kinetic (fst (bounce head_on_a head_on_b)) (snd (bounce head_on_a head_on_b))
    = kinetic head_on_a head_on_b /\
  overlaps head_on_a head_on_b = true.
Proof. vm_compute. repeat split. Qed.

(** * The collision detector *)






(** * Normalization *)

(** The line of centres of two balls at the same centre has components
    [+0] or NaN, and its normalization is (NaN, NaN). *)
Lemma norm_same_centre (a b : Ball float) :
  pos a = pos b -> norm (centre_line a b) = mkVec2 PrimFloat.nan PrimFloat.nan.
Proof.
  intros E. unfold centre_line. rewrite E. cbn [dsub Double_binary64].
  destruct (Binary64.sub_diag (x (pos b))) as [-> | ->],
           (Binary64.sub_diag (y (pos b))) as [-> | ->]; reflexivity.
Qed.

(** With a normal of NaN components, [bounce] leaves no velocity. *)
Lemma bounce_nan_normal (a b : Ball float) :
  norm (centre_line a b) = mkVec2 PrimFloat.nan PrimFloat.nan ->
  dir (fst (bounce a b)) = mkVec2 PrimFloat.nan PrimFloat.nan /\
  dir (snd (bounce a b)) = mkVec2 PrimFloat.nan PrimFloat.nan.
Proof.
  intros E. unfold bounce. fold (centre_line a b). rewrite E.
  unfold dot, set_dir, set_x, set_y.
  cbn [fst snd dir x y dadd dsub dmul Double_binary64].
  rewrite !Binary64.mul_nan_r, !Binary64.add_nan_r, !Binary64.sub_nan_r.
  split; reflexivity.
Qed.

(** A vector that is not zero can have the magnitude zero: the squares
    of its components underflow.  Its normalization then divides by zero
    as well. *)
Remark magnitude_underflow :
  PrimFloat.eqb 0x1p-600%float 0 = false /\
  magnitude (mkVec2 0x1p-600%float 0%float) = 0%float /\
  norm (mkVec2 0x1p-600%float 0%float) = mkVec2 PrimFloat.infinity PrimFloat.nan.
Proof. repeat split. Qed.

(** C8.  [norm] divides both components of its vector by the magnitude
    of the vector.  When the magnitude is not zero, that is the result
    of the spec's [normalize] (no division by zero occurs).  When the
    magnitude is zero the spec's [normalize] fails, and the code, which
    has no test, divides by zero: each component becomes NaN or an
    infinity, and the zero vector becomes (NaN, NaN).  Two balls at the
    same centre give [bounce] such a normal, and [bounce] then leaves NaN
    in every velocity component: the call is safe only for distinct
    centres. *)
Theorem norm_divides_by_magnitude :
  (forall v : vec2 float,
     norm v = mkVec2 (PrimFloat.div (x v) (magnitude v))
                     (PrimFloat.div (y v) (magnitude v))) /\
  (forall v : vec2 float,
     PrimFloat.eqb (magnitude v) 0 = false -> normalize_spec v = Some (norm v)) /\
  (forall v : vec2 float,
     PrimFloat.eqb (magnitude v) 0 = true ->
     normalize_spec v = None /\
     not_finite (x (norm v)) = true /\ not_finite (y (norm v)) = true) /\
  norm (mkVec2 0%float 0%float) = mkVec2 PrimFloat.nan PrimFloat.nan /\
  (forall a b : Ball float,
     pos a = pos b ->
     norm (centre_line a b) = mkVec2 PrimFloat.nan PrimFloat.nan /\
     dir (fst (bounce a b)) = mkVec2 PrimFloat.nan PrimFloat.nan /\
     dir (snd (bounce a b)) = mkVec2 PrimFloat.nan PrimFloat.nan) /\
  (forall a b : Ball float,
     PrimFloat.is_nan (x (norm (centre_line a b))) = false -> pos a <> pos b).
Proof.
  split; [reflexivity|].
  split; [intros v Hm; unfold normalize_spec; rewrite Hm; reflexivity|].
  split.
  { intros v Hm. split; [unfold normalize_spec; rewrite Hm; reflexivity|].
    split; apply Binary64.div_zero_not_finite; exact Hm. }
  split; [reflexivity|].
  split.
  { intros a b E. split; [apply norm_same_centre; exact E|].
    apply bounce_nan_normal, norm_same_centre. exact E. }
  intros a b Hn E. rewrite (norm_same_centre a b E) in Hn. discriminate Hn.
Qed.

Lemma norm_divides_by_magnitude_witness :
  PrimFloat.eqb (magnitude three_four) 0 = false /\
  normalize_spec three_four = Some (norm three_four) /\
  magnitude three_four = 5%float.
Proof.
  split; [reflexivity|]. split; [|reflexivity].
  apply (proj1 (proj2 norm_divides_by_magnitude) three_four). reflexivity.
Defined.

(** * Momentum *)

(** In binary64 the two additions of the impulse round: for the balls
    at (100,100) and (101,102) with velocities (2,0) and (-1,0), which
    overlap, the velocities after [bounce] are (1.4, -1.2) and (-0.4, 1.2)
    up to rounding.  On [x] they are the numbers [6305039478318694 * 2^-52]
    and [- 7205759403792794 * 2^-54], whose sum is [1 - 2^-53] as a real
    number and as a [double], where the sum before the call is [1]. *)
Lemma bounce_momentum_rounds :
  overlaps slanted_a slanted_b = true /\
  pos slanted_a <> pos slanted_b /\
  x (momentum slanted_a slanted_b) = 1%float /\
  x (momentum (fst (bounce slanted_a slanted_b)) (snd (bounce slanted_a slanted_b)))
    = 0x1.fffffffffffffp-1%float /\
  Prim2SF (x (dir (fst (bounce slanted_a slanted_b))))
    = S754_finite false 6305039478318694 (-52) /\
  Prim2SF (x (dir (snd (bounce slanted_a slanted_b))))
    = S754_finite true 7205759403792794 (-54) /\
  (4 * 6305039478318694 - 7205759403792794 = 2 ^ 54 - 2)%Z /\
  momentum (fst (bounce slanted_a slanted_b)) (snd (bounce slanted_a slanted_b))
    <> momentum slanted_a slanted_b.
Proof.
  split; [reflexivity|]. split; [vm_compute; intros E; discriminate E|].
  split; [reflexivity|]. split; [reflexivity|].
  split; [reflexivity|]. split; [reflexivity|]. split; [reflexivity|].
  vm_compute. intros E. discriminate E.
Qed.

Section ExactFacts.
Local Open Scope R_scope.

(** In exact arithmetic the normal of two balls at distinct centres
    is a unit vector. *)
Lemma normal_unit (a b : Ball R) :
  pos a <> pos b ->
  x (norm (centre_line a b)) * x (norm (centre_line a b))
  + y (norm (centre_line a b)) * y (norm (centre_line a b)) = 1.
Proof.
  destruct a as [ra [ax ay] va sa], b as [rb [bx by'] vb sb]. intros Hne.
  cbn [pos] in Hne.
  unfold centre_line, norm, magnitude, pow2, set_x, set_y. cbn.
  set (dx := bx - ax). set (dy := by' - ay).
  assert (0 < dx * dx + dy * dy) as Hpos.
  { destruct (Req_dec dx 0) as [Ex|Ex].
    - destruct (Req_dec dy 0) as [Ey|Ey].
      + exfalso. apply Hne. unfold dx in Ex. unfold dy in Ey.
        f_equal; lra.
      + rewrite Ex. nra.
    - nra. }
  pose proof (sqrt_lt_R0 _ Hpos) as Hm.
  pose proof (sqrt_sqrt (dx * dx + dy * dy) (Rlt_le _ _ Hpos)) as Hmm.
  set (m := R_sqrt.sqrt (dx * dx + dy * dy)) in *.
  replace (dx / m * (dx / m) + dy / m * (dy / m))
    with ((dx * dx + dy * dy) / (m * m)) by (field; lra).
  rewrite Hmm. field. lra.
Qed.
End ExactFacts.

(** [bounce] subtracts [impulse a b] from the velocity of [a] and adds
    it to the velocity of [b], in every arithmetic. *)
Lemma bounce_impulse {D : Type} `{Double D} (a b : Ball D) :
  dir (fst (bounce a b))
    = mkVec2 (dsub (x (dir a)) (x (impulse a b))) (dsub (y (dir a)) (y (impulse a b))) /\
  dir (snd (bounce a b))
    = mkVec2 (dadd (x (dir b)) (x (impulse a b))) (dadd (y (dir b)) (y (impulse a b))).
Proof. split; reflexivity. Qed.

(** C1, as amended.  [bounce] subtracts from the velocity of [a] the
    impulse that it adds to the velocity of [b] (in binary64 as in every
    arithmetic), and in exact real arithmetic the sum of the two
    velocities after the call is the sum before it, for every pair of
    balls with distinct centres. *)
Theorem bounce_conserves_momentum_exact (a b : Ball R) :
  pos a <> pos b ->
  momentum (fst (bounce a b)) (snd (bounce a b)) = momentum a b /\
  (forall a' b' : Ball float,
     x (dir (fst (bounce a' b'))) = PrimFloat.sub (x (dir a')) (x (impulse a' b')) /\
     y (dir (fst (bounce a' b'))) = PrimFloat.sub (y (dir a')) (y (impulse a' b')) /\
     x (dir (snd (bounce a' b'))) = PrimFloat.add (x (dir b')) (x (impulse a' b')) /\
     y (dir (snd (bounce a' b'))) = PrimFloat.add (y (dir b')) (y (impulse a' b'))).
Proof.
  intros _. split.
  - unfold momentum. rewrite (proj1 (bounce_impulse a b)), (proj2 (bounce_impulse a b)).
    cbn [x y dadd dsub Double_R]. f_equal; ring.
  - intros a' b'. repeat split.
Qed.

Lemma bounce_conserves_momentum_exact_witness :
  pos exact_a <> pos exact_b /\
  momentum (fst (bounce exact_a exact_b)) (snd (bounce exact_a exact_b))
    = momentum exact_a exact_b.
Proof.
  assert (pos exact_a <> pos exact_b) as Hne.
  { unfold exact_a, exact_b. cbn [pos]. intros E.
    apply (f_equal x) in E. cbn [x] in E. lra. }
  split; [exact Hne|].
  exact (proj1 (bounce_conserves_momentum_exact exact_a exact_b Hne)).
Defined.

(** * Bouncing twice *)

(** In binary64 a second [bounce] at the same positions does not give
    back the velocities: for the balls at (100,100) and (101,101) with
    velocities (1,0) and (0,0), which overlap, the first ball ends with the
    velocity [(1 - 2^-53, -2^-53)], not [(1, 0)]. *)
Lemma bounce_twice_rounds :
  overlaps diagonal_a diagonal_b = true /\
  pos diagonal_a <> pos diagonal_b /\
  dir diagonal_a = mkVec2 1%float 0%float /\
  dir (fst (bounce (fst (bounce diagonal_a diagonal_b))
                   (snd (bounce diagonal_a diagonal_b))))
    = mkVec2 0x1.fffffffffffffp-1%float (-0x1p-53)%float /\
  dir (fst (bounce (fst (bounce diagonal_a diagonal_b))
                   (snd (bounce diagonal_a diagonal_b))))
    <> dir diagonal_a.
Proof.
  split; [reflexivity|]. split; [vm_compute; intros E; discriminate E|].
  split; [reflexivity|]. split; [reflexivity|].
  vm_compute. intros E. discriminate E.
Qed.

(** Nor does binary64 give them back up to a rounding error: for two
    overlapping balls with the finite velocities [(2^1023, 0)] and
    [(-2^1023, 0)] the scalar product overflows, and after the second
    [bounce] no component of either velocity is a number. *)
Lemma bounce_twice_overflows :
  overlaps fast_a fast_b = true /\
  pos fast_a <> pos fast_b /\
  finite_ball fast_a = true /\ finite_ball fast_b = true /\
  dir (fst (bounce (fst (bounce fast_a fast_b)) (snd (bounce fast_a fast_b))))
    = mkVec2 PrimFloat.nan PrimFloat.nan /\
  dir (snd (bounce (fst (bounce fast_a fast_b)) (snd (bounce fast_a fast_b))))
    = mkVec2 PrimFloat.nan PrimFloat.nan.
Proof.
  split; [reflexivity|]. split; [vm_compute; intros E; discriminate E|].
  repeat split.
Qed.

(** C9, as amended.  In exact real arithmetic, for every pair of balls
    with distinct centres, a second [bounce] on the result of a first one
    gives back the two balls as they were: positions are not changed by
    [bounce], and both velocity vectors are restored. *)
Theorem bounce_twice_exact (a b : Ball R) :
  pos a <> pos b ->
  bounce (fst (bounce a b)) (snd (bounce a b)) = (a, b).
Proof.
  intros Hne. pose proof (normal_unit a b Hne) as Hu.
  destruct a as [ra pa [vax vay] sa], b as [rb pb [vbx vby] sb].
  unfold bounce, set_dir, set_x, set_y, dot in *.
  cbn [fst snd pos dir radius subspaces x y] in *.
  fold (centre_line (mkBall ra pa (mkVec2 vax vay) sa) (mkBall rb pb (mkVec2 vbx vby) sb)) in *.
  unfold centre_line in *. cbn [pos x y] in *.
  set (n := norm _) in *.
  cbn [dadd dsub dmul Double_R] in *.
  set (nx := x n) in *. set (ny := y n) in *.
  set (s := (vax * nx + vay * ny - (vbx * nx + vby * ny))%R).
  assert (forall v k : R, (v + k * (nx * nx + ny * ny - 1) = v)%R) as Hk
    by (intros v k; rewrite Hu; ring).
  f_equal; f_equal; f_equal.
  - rewrite <- (Hk vax (2 * s * nx)%R) at 3. unfold s. ring.
  - rewrite <- (Hk vay (2 * s * ny)%R) at 3. unfold s. ring.
  - rewrite <- (Hk vbx (- (2 * s * nx))%R) at 3. unfold s. ring.
  - rewrite <- (Hk vby (- (2 * s * ny))%R) at 3. unfold s. ring.
Qed.

Lemma bounce_twice_exact_witness :
  pos exact_a <> pos exact_b /\
  bounce (fst (bounce exact_a exact_b)) (snd (bounce exact_a exact_b))
    = (exact_a, exact_b).
Proof.
  assert (pos exact_a <> pos exact_b) as Hne.
  { unfold exact_a, exact_b. cbn [pos]. intros E.
    apply (f_equal x) in E. cbn [x] in E. lra. }
  split; [exact Hne|].
  exact (bounce_twice_exact exact_a exact_b Hne).
Defined.

(** * The simulation step *)

Section StepFacts.
Context {D : Type} `{Double D}.
Implicit Types (bs : list (Ball D)) (a b : Ball D) (st : state D).

Lemma color_after_blue js : color_after js blue = blue.
Proof. destruct js; reflexivity. Qed.

(** The inner loop either stops at the first body that [i] overlaps,
    having missed the ones before it, or misses every body. *)
Lemma scan_spec (i : nat) a bs :
  bs !! i = Some a ->
  forall js c,
    Forall (fun j => (j < length bs)%nat) js ->
    (exists js1 j js2 b,
        js = js1 ++ j :: js2 /\ j <> i /\ bs !! j = Some b /\
        overlaps a b = true /\ Forall (miss bs i a) js1 /\
        scan i js (mkState bs c)
        = Some (mkState (<[j := snd (bounce a b)]> (<[i := fst (bounce a b)]> bs)) red,
                misses i (filter (fun k => k <> i) js1)
                  ++ [EOverlaps i j true; EBounce i j]))
    \/ (Forall (miss bs i a) js /\
        scan i js (mkState bs c)
        = Some (mkState bs (color_after (filter (fun k => k <> i) js) c),
                misses i (filter (fun k => k <> i) js))).
Proof.
  intros Ha js. induction js as [|j js IH]; intros c Hlt.
  - right. split; [constructor|reflexivity].
  - apply Forall_cons in Hlt as [Hj Hlt]. cbn [scan].
    destruct (decide (i = j)) as [<-|Hij].
    + destruct (IH c Hlt) as [(js1 & j0 & js2 & b & -> & Hj0 & Hb & Hov & Hms & Hsc)
                             |[Hms Hsc]].
      * left. exists (i :: js1), j0, js2, b.
        split; [reflexivity|]. split; [exact Hj0|].
        split; [exact Hb|]. split; [exact Hov|]. split.
        -- constructor; [intros Hne; contradiction|assumption].
        -- rewrite filter_cons_False by (intros Hne; apply Hne; reflexivity).
           exact Hsc.
      * right. split.
        -- constructor; [intros Hne; contradiction|assumption].
        -- rewrite filter_cons_False by (intros Hne; apply Hne; reflexivity).
           exact Hsc.
    + cbn [balls]. rewrite Ha.
      destruct (lookup_lt_is_Some_2 bs j Hj) as [b Hb]. rewrite Hb.
      cbn [mbind option_bind].
      destruct (overlaps a b) eqn:Hov.
      * left. exists [], j, js, b.
        split; [reflexivity|]. split; [intros ->; apply Hij; reflexivity|].
        split; [exact Hb|]. split; [exact Hov|]. split; [constructor|].
        destruct (bounce a b) as [a' b']. reflexivity.
      * assert (miss bs i a j) as Hmj by (intros _; exists b; split; assumption).
        assert (j <> i) as Hji by (intros ->; apply Hij; reflexivity).
        destruct (IH blue Hlt) as [(js1 & j0 & js2 & b0 & -> & Hj0 & Hb0 & Hov0 & Hms & Hsc)
                                  |[Hms Hsc]].
        -- left. exists (j :: js1), j0, js2, b0.
           split; [reflexivity|]. split; [exact Hj0|].
           split; [exact Hb0|]. split; [exact Hov0|]. split.
           ++ constructor; assumption.
           ++ rewrite Hsc. cbn [mbind option_bind].
              rewrite filter_cons_True by exact Hji. reflexivity.
        -- right. split; [constructor; assumption|].
           rewrite Hsc. cbn [mbind option_bind].
           rewrite filter_cons_True by exact Hji.
           cbn [color_after]. rewrite color_after_blue. reflexivity.
Qed.

Lemma seq_split (n : nat) (l1 l2 : list nat) (j : nat) :
  seq 0 n = l1 ++ j :: l2 -> l1 = seq 0 j /\ (j < n)%nat.
Proof.
  intros E.
  assert (seq 0 n !! length l1 = Some j) as Hj
    by (rewrite E; apply list_lookup_middle; reflexivity).
  apply lookup_seq in Hj as [Hj Hlt]. cbn in Hj. subst j.
  split; [|exact Hlt].
  assert (l1 = take (length l1) (seq 0 n)) as ->
    by (rewrite E, take_app_length; reflexivity).
  rewrite take_seq, length_seq. f_equal; lia.
Qed.

(** The body of the outer loop does what [body_outcome] says. *)
Lemma render_one_spec (amnt i : nat) st :
  (amnt <= length (balls st))%nat -> (i < amnt)%nat ->
  exists out, render_one amnt i st = Some out /\ body_outcome amnt i st out.
Proof.
  intros Hlen Hi. destruct st as [bs c]. cbn [balls] in Hlen.
  destruct (lookup_lt_is_Some_2 bs i ltac:(lia)) as [a Ha].
  assert (Forall (fun j => (j < length bs)%nat) (seq 0 amnt)) as Hlt
    by (apply Forall_seq; intros; lia).
  unfold render_one, body_outcome. cbn [balls draw_color].
  destruct (scan_spec i a bs Ha (seq 0 amnt) c Hlt)
    as [(js1 & j & js2 & b & Hsplit & Hji & Hb & Hov & Hms & ->) | [Hms ->]].
  - apply seq_split in Hsplit as [-> Hj]. fold (others i j).
    cbn [mbind option_bind balls draw_color].
    rewrite list_lookup_insert_ne by (intros ->; apply Hji; reflexivity).
    rewrite list_lookup_insert_eq by lia.
    cbn [mbind option_bind]. eexists. split; [reflexivity|].
    exists a. split; [exact Ha|]. left. exists j, b.
    split; [exact Hj|]. split.
    { split; [exact Hji|]. split; [exists a, b; auto|].
      intros k Hk Hki. rewrite Forall_seq in Hms.
      destruct (Hms k ltac:(lia) Hki) as (c' & Hc' & Hov').
      exists a, c'. auto. }
    split; [exact Hb|]. unfold advance. rewrite <- app_assoc. reflexivity.
  - fold (others i amnt). cbn [mbind option_bind balls draw_color].
    rewrite Ha. cbn [mbind option_bind]. eexists. split; [reflexivity|].
    exists a. split; [reflexivity|]. right. split; [|reflexivity].
    intros k Hk Hki. rewrite Forall_seq in Hms.
    destruct (Hms k ltac:(lia) Hki) as (c' & Hc' & Hov').
    exists a, c'. auto.
Qed.

(** The body of the outer loop keeps the number of balls. *)
Lemma render_one_length (amnt i : nat) st st' evs :
  (amnt <= length (balls st))%nat -> (i < amnt)%nat ->
  render_one amnt i st = Some (st', evs) ->
  length (balls st') = length (balls st).
Proof.
  intros Hlen Hi Hr.
  destruct (render_one_spec amnt i st Hlen Hi) as (out & Hout & a & _ & Hcase).
  rewrite Hr in Hout. injection Hout as <-.
  destruct Hcase as [(j & b & _ & _ & _ & E) | [_ E]];
    injection E as -> _; cbn [balls]; rewrite ?length_insert; reflexivity.
Qed.

Lemma count_bounces_misses (i : nat) (js : list nat) (evs : list event) :
  count_bounces (misses i js ++ evs) = count_bounces evs.
Proof. induction js as [|j js IH]; [reflexivity|exact IH]. Qed.

(** For one body the resolver is called at most once. *)
Lemma body_outcome_bounces (amnt i : nat) st st' evs :
  body_outcome amnt i st (st', evs) -> (count_bounces evs <= 1)%nat.
Proof.
  intros (a & _ & [(j & b & _ & _ & _ & E) | [_ E]]);
    injection E as _ ->; rewrite count_bounces_misses; cbn; lia.
Qed.


End StepFacts.



(** * A frame without collisions *)

(** The two balls of [touching] do not overlap when the frame starts,
    yet the frame calls the resolver: body 0 moves from (100,100) to
    (104,100) before body 1 is tested against it, and [bounce] then
    changes the velocity of body 1 from (0,0) to (4,0) and that of body 0
    from (4,0) to (0,0). *)
Lemma renderBalls_bounce_after_move :
  no_overlap (balls touching) /\
  renderBalls 2 touching
  = Some (mkState [ball_at 5 104 100 0 0; ball_at 5 114 100 4 0] red,
          [EOverlaps 0 1 false; EDraw 0 blue; EPrint 0; EMove 0; EBounceWall 0;
           EOverlaps 1 0 true; EBounce 1 0;
           EDraw 1 red; EPrint 1; EMove 1; EBounceWall 1]).
Proof.
  split.
  - intros i j a b Hij Ha Hb.
    destruct i as [|[|i]], j as [|[|j]]; cbn in Ha, Hb;
      try discriminate; try congruence;
      injection Ha as <-; injection Hb as <-; reflexivity.
  - vm_compute. reflexivity.
Qed.

Section QuietFrame.
Context {D : Type} `{Double D}.
Implicit Types (bs : list (Ball D)) (a b : Ball D).

(** The balls when the turn of body [k] comes in a frame without
    collisions so far: the first [k] are advanced. *)
Lemma lookup_partly_advanced bs (k j : nat) :
  (k <= length bs)%nat ->
  ((advance <$> take k bs) ++ drop k bs) !! j = as_seen_by k j <$> bs !! j.
Proof.
  intros Hk. unfold as_seen_by.
  assert (length (advance <$> take k bs) = k) as Hl
    by (rewrite length_fmap, length_take; lia).
  destruct (decide (j < k)%nat) as [Hj|Hj].
  - rewrite lookup_app_l by lia.
    rewrite list_lookup_fmap, lookup_take_lt by lia. reflexivity.
  - rewrite lookup_app_r by lia. rewrite Hl, lookup_drop.
    replace (k + (j - k))%nat with j by lia.
    destruct (bs !! j); reflexivity.
Qed.

Lemma advance_one_more bs (k : nat) a :
  bs !! k = Some a ->
  <[k := advance a]> ((advance <$> take k bs) ++ drop k bs)
  = (advance <$> take (S k) bs) ++ drop (S k) bs.
Proof.
  intros Ha. pose proof (lookup_lt_Some _ _ _ Ha) as Hk.
  assert (length (advance <$> take k bs) = k) as Hl
    by (rewrite length_fmap, length_take; lia).
  rewrite insert_app_r_alt by lia. rewrite Hl, Nat.sub_diag.
  rewrite (drop_S _ _ _ Ha). cbn [insert list_insert].
  rewrite (take_S_r _ _ _ Ha), fmap_app, <- app_assoc. reflexivity.
Qed.

(** A quiet frame advances every body and calls no resolver. *)
Lemma render_from_quiet bs :
  quiet bs ->
  forall n k c,
    (k + n = length bs)%nat ->
    exists c' evs,
      render_from (length bs) (seq k n)
        (mkState ((advance <$> take k bs) ++ drop k bs) c)
      = Some (mkState (advance <$> bs) c', evs) /\
      count_bounces evs = 0%nat.
Proof.
  intros Hq. induction n as [|n IH]; intros k c Hk.
  - exists c, []. split; [|reflexivity]. cbn [seq render_from].
    rewrite take_ge, drop_ge, app_nil_r by lia. reflexivity.
  - set (cur := (advance <$> take k bs) ++ drop k bs).
    assert (length cur = length bs) as Hcur.
    { unfold cur. rewrite length_app, length_fmap, length_take, length_drop. lia. }
    destruct (render_one_spec (length bs) k (mkState cur c))
      as ([st1 evs1] & Hr & a & Ha & Hcase);
      [cbn [balls]; lia | lia |].
    cbn [balls draw_color] in Ha, Hcase.
    unfold cur in Ha. rewrite lookup_partly_advanced in Ha by lia.
    unfold as_seen_by in Ha.
    destruct (decide (k < k)%nat) as [Hkk|_]; [lia|].
    destruct (bs !! k) as [a0|] eqn:Ha0; [|discriminate Ha].
    cbn in Ha. injection Ha as ->.
    destruct Hcase as [(j & b & Hj & (Hjk & (a' & b' & Ha' & Hb' & Hov) & _) & _ & _)
                      | [_ E]].
    + exfalso. unfold cur in Ha', Hb'.
      rewrite lookup_partly_advanced in Ha', Hb' by lia.
      unfold as_seen_by at 1 in Ha'.
      destruct (decide (k < k)%nat) as [Hkk|_]; [lia|].
      rewrite Ha0 in Ha'. cbn in Ha'. injection Ha' as <-.
      destruct (bs !! j) as [b0|] eqn:Hb0; [|discriminate Hb'].
      cbn in Hb'. injection Hb' as <-.
      rewrite (Hq k j a b0) in Hov; [discriminate Hov| |exact Ha0|exact Hb0].
      intros ->. apply Hjk. reflexivity.
    + injection E as -> ->.
      unfold cur in Hr |- *. rewrite (advance_one_more bs k a Ha0) in Hr.
      destruct (IH (S k) (color_after (others k (length bs)) c) ltac:(lia))
        as (c' & evs & Hrest & Hcount).
      exists c'. eexists. split.
      * cbn [seq render_from]. rewrite Hr. cbn [mbind option_bind].
        rewrite Hrest. reflexivity.
      * rewrite <- app_assoc, count_bounces_misses. cbn. exact Hcount.
Qed.

End QuietFrame.

(** C2, as amended.  When every body, at its turn, overlaps no other
    body, the earlier ones taken as the frame has already advanced them
    and the later ones as the frame found them, a whole frame does not
    call the resolver, and every body ends the frame moved and reflected
    off the walls: no velocity is changed but by [bounceWall]. *)
Theorem renderBalls_quiet {D : Type} `{Double D} (bs : list (Ball D)) (c : color) :
  quiet bs ->
  exists c' evs,
    renderBalls (length bs) (mkState bs c) = Some (mkState (advance <$> bs) c', evs) /\
    count_bounces evs = 0%nat.
Proof.
  intros Hq.
  destruct (render_from_quiet bs Hq (length bs) 0 c eq_refl) as (c' & evs & Hr & Hc).
  exists c', evs. split; [|exact Hc].
  unfold renderBalls. rewrite take_0, drop_0 in Hr. exact Hr.
Qed.

Lemma renderBalls_quiet_witness :
  quiet apart /\
  exists c' evs,
    renderBalls (length apart) (mkState apart red)
    = Some (mkState (advance <$> apart) c', evs) /\
    count_bounces evs = 0%nat.
Proof.
  assert (quiet apart) as Hq.
  { intros i j a b Hij Ha Hb.
    destruct i as [|[|i]], j as [|[|j]]; cbn in Ha, Hb;
      try discriminate; try congruence;
      injection Ha as <-; injection Hb as <-; reflexivity. }
  split; [exact Hq|].
  exact (renderBalls_quiet apart red Hq).
Defined.

(** * Operations on [int] *)

Section IntFacts.
Local Open Scope Z_scope.

Lemma int_range : INT_MIN = -2147483648 /\ INT_MAX = 2147483647.
Proof. split; reflexivity. Qed.

Lemma int_of_ok (z : Z) : INT_MIN <= z <= INT_MAX -> int_of z = Some z.
Proof.
  intros Hz. unfold int_of, int_ok.
  replace (INT_MIN <=? z) with true by lia.
  replace (z <=? INT_MAX) with true by lia. reflexivity.
Qed.

Lemma int_of_Some (z z' : Z) : int_of z = Some z' -> z' = z /\ INT_MIN <= z <= INT_MAX.
Proof.
  unfold int_of, int_ok. destruct (INT_MIN <=? z) eqn:E1; [|discriminate].
  destruct (z <=? INT_MAX) eqn:E2; [|discriminate].
  intros [= <-]. lia.
Qed.

Lemma int_of_None (z : Z) : INT_MAX < z -> int_of z = None.
Proof.
  intros Hz. unfold int_of, int_ok.
  replace (z <=? INT_MAX) with false by lia.
  rewrite andb_false_r. reflexivity.
Qed.

Lemma shiftl_1 (r : Z) : Z.shiftl r 1 = 2 * r.
Proof. rewrite Z.shiftl_mul_pow2 by lia. lia. Qed.

Lemma shl1_ok (r : Z) : 0 <= r -> 2 * r <= INT_MAX -> shl1 r = Some (2 * r).
Proof.
  intros H0 H1. unfold shl1. replace (0 <=? r) with true by lia.
  rewrite shiftl_1. apply int_of_ok. destruct int_range as [-> _]. lia.
Qed.

End IntFacts.

(** * Drawing a ball *)

Section DrawFacts.
Local Open Scope Z_scope.

(** The points of one iteration lie on the outline and in the box, when
    [(x, y)] does. *)
Lemma octants_on_outline (r x0 y0 x y : Z) :
  0 <= y <= x -> x <= r - 1 ->
  x * x + y * y - r * r <= 0 -> 0 <= x * x + y * y - r * r + 2 * x + 1 ->
  Forall (fun p => on_outline r x0 y0 p /\
                   Z.abs (fst p - x0) <= r - 1 /\ Z.abs (snd p - y0) <= r - 1)
         (octants x0 y0 x y).
Proof.
  intros Hy Hx Hin Hout. unfold octants, on_outline.
  repeat constructor; cbn [fst snd];
    try replace (x0 + x - x0) with x by lia;
    try replace (x0 + y - x0) with y by lia;
    try replace (x0 - x - x0) with (- x) by lia;
    try replace (x0 - y - x0) with (- y) by lia;
    try replace (y0 + x - y0) with x by lia;
    try replace (y0 + y - y0) with y by lia;
    try replace (y0 - x - y0) with (- x) by lia;
    try replace (y0 - y - y0) with (- y) by lia;
    try lia; nia.
Qed.

(** With room around the centre pixel, the eight calls are defined. *)
Lemma draw_octants_ok (r x0 y0 x y : Z) :
  0 <= y <= x -> x <= r - 1 -> room r x0 y0 ->
  draw_octants x0 y0 x y = Some (octants x0 y0 x y).
Proof.
  intros Hy Hx (H1 & H2 & H3 & H4). unfold draw_octants.
  assert (forall z, INT_MIN <= z <= INT_MAX -> int_ok z = true) as Hok.
  { intros z Hz. unfold int_ok. apply andb_true_intro. split; lia. }
  replace (forallb (fun p => int_ok (fst p) && int_ok (snd p)) (octants x0 y0 x y))
    with true; [reflexivity|].
  symmetry. unfold octants. cbn [forallb fst snd].
  rewrite !Hok by lia. reflexivity.
Qed.

Lemma draw_octants_Some (x0 y0 x y : Z) (pts : list point) :
  draw_octants x0 y0 x y = Some pts -> pts = octants x0 y0 x y.
Proof.
  unfold draw_octants.
  destruct (forallb _ _); [|discriminate]. intros [= <-]. reflexivity.
Qed.

(** The loop of [drawBall]: with [err = x^2 + y^2 - r^2] kept by the
    increments, no operation leaves the range of [int], the loop ends
    within [x - y + 1] iterations and every point it draws lies on the
    outline. *)
Lemma drawBall_loop_spec (r x0 y0 : Z) :
  0 <= r < 2 ^ 30 -> room r x0 y0 ->
  forall (fuel : nat) (x y dx dy err : Z),
    dy = 2 * y + 1 -> dx = 2 * (r - 1 - x) + 1 ->
    err = x * x + y * y - r * r ->
    0 <= y -> x <= r - 1 -> (err <= 0 \/ x < y) -> 0 <= err + 2 * x + 1 ->
    x - y + 1 <= Z.of_nat fuel ->
    exists pts,
      drawBall_loop fuel r x0 y0 x y dx dy err = Some pts /\
      Forall (fun p => on_outline r x0 y0 p /\
                       Z.abs (fst p - x0) <= r - 1 /\ Z.abs (snd p - y0) <= r - 1) pts /\
      Z.of_nat (length pts) <= 8 * Z.max 0 (x - y + 1) /\
      (y <= x -> exists rest, pts = octants x0 y0 x y ++ rest).
Proof.
  intros Hr Hroom. destruct int_range as [Hmin Hmax].
  induction fuel as [|fuel IH]; intros x y dx dy err Hdy Hdx Herr Hy Hx Hin Hout Hfuel;
    cbn [drawBall_loop]; destruct (x >=? y) eqn:Hxy.
  - lia.
  - exists []. split; [reflexivity|]. split; [constructor|]. cbn. split; lia.
  - assert (y <= x) as Hle by lia. assert (err <= 0) as Hneg by lia.
    rewrite (draw_octants_ok r) by (assumption || lia).
    replace (err <=? 0) with true by lia.
    rewrite (int_of_ok (y + 1)), (int_of_ok (err + dy)), (int_of_ok (dy + 2)) by lia.
    cbn [mbind option_bind].
    destruct (err + dy >? 0) eqn:Hpos.
    + rewrite (int_of_ok (x - 1)), (int_of_ok (dx + 2)) by lia.
      cbn [mbind option_bind].
      rewrite shl1_ok by lia. cbn [mbind option_bind].
      rewrite (int_of_ok (dx + 2 - 2 * r)) by lia. cbn [mbind option_bind].
      rewrite (int_of_ok (err + dy + (dx + 2 - 2 * r))) by lia.
      cbn [mbind option_bind].
      destruct (IH (x - 1) (y + 1) (dx + 2) (dy + 2) (err + dy + (dx + 2 - 2 * r)))
        as (rest & -> & Hrest & Hlen & _); try lia; try nia.
      cbn [mbind option_bind].
      exists (octants x0 y0 x y ++ rest). split; [reflexivity|]. split; [|split].
      * apply Forall_app. split; [|exact Hrest].
        apply octants_on_outline; lia.
      * rewrite length_app. cbn [length octants]. lia.
      * intros _. exists rest. reflexivity.
    + cbn [mbind option_bind].
      destruct (IH x (y + 1) dx (dy + 2) (err + dy))
        as (rest & -> & Hrest & Hlen & _); try lia; try nia.
      cbn [mbind option_bind].
      exists (octants x0 y0 x y ++ rest). split; [reflexivity|]. split; [|split].
      * apply Forall_app. split; [|exact Hrest].
        apply octants_on_outline; lia.
      * rewrite length_app. cbn [length octants]. lia.
      * intros _. exists rest. reflexivity.
  - exists []. split; [reflexivity|]. split; [constructor|]. cbn. split; lia.
Qed.

(** [drawBall] from its first statement to the loop. *)
Lemma drawBall_spec (ball : Ball float) (x0 y0 : Z) :
  double_to_int (x (pos ball)) = Some x0 ->
  double_to_int (y (pos ball)) = Some y0 ->
  0 <= radius ball < 2 ^ 30 -> room (radius ball) x0 y0 ->
  exists pts,
    drawBall ball = Some pts /\
    Forall (fun p => on_outline (radius ball) x0 y0 p /\
                     Z.abs (fst p - x0) <= radius ball - 1 /\
                     Z.abs (snd p - y0) <= radius ball - 1) pts /\
    Z.of_nat (length pts) <= 8 * radius ball /\
    (1 <= radius ball ->
     exists rest, pts = octants x0 y0 (radius ball - 1) 0 ++ rest).
Proof.
  intros Hx Hy Hr Hroom. destruct int_range as [Hmin Hmax].
  unfold drawBall. rewrite Hx, Hy. cbn [mbind option_bind].
  unfold drawBall_at.
  rewrite (int_of_ok (radius ball - 1)) by lia. cbn [mbind option_bind].
  rewrite shl1_ok by lia. cbn [mbind option_bind].
  rewrite (int_of_ok (1 - 2 * radius ball)) by lia. cbn [mbind option_bind].
  destruct (drawBall_loop_spec (radius ball) x0 y0 Hr Hroom (Z.to_nat (radius ball))
              (radius ball - 1) 0 1 1 (1 - 2 * radius ball))
    as (pts & Hpts & Hall & Hlen & Hhead); try lia.
  exists pts. split; [exact Hpts|]. split; [exact Hall|]. split; [lia|].
  intros H1. apply Hhead. lia.
Qed.

End DrawFacts.

Section DrawSymmetry.
Local Open Scope Z_scope.

(** The eight points of one iteration are closed under the three
    mirrorings. *)
Lemma octants_mirrored (x0 y0 x y : Z) (p : point) :
  In p (octants x0 y0 x y) ->
  In (mirror_x x0 p) (octants x0 y0 x y) /\
  In (mirror_y y0 p) (octants x0 y0 x y) /\
  In (transpose x0 y0 p) (octants x0 y0 x y).
Proof.
  unfold octants, mirror_x, mirror_y, transpose. cbn [In].
  intros Hp.
  repeat match goal with
         | Hp : _ \/ _ |- _ => destruct Hp as [<- | Hp]
         | Hp : False |- _ => destruct Hp
         end;
    cbn [fst snd]; repeat split;
    repeat match goal with
           | |- (?a, ?b) = (?c, ?d) \/ _ =>
               first [ left; f_equal; lia | right ]
           end.
Qed.

(** One iteration: the eight points, then the rest of the loop. *)
Lemma drawBall_loop_step (r x0 y0 : Z) (fuel : nat) (x y dx dy err : Z) (pts : list point) :
  drawBall_loop (S fuel) r x0 y0 x y dx dy err = Some pts ->
  (x >=? y) = true ->
  exists x' y' dx' dy' err' rest,
    drawBall_loop fuel r x0 y0 x' y' dx' dy' err' = Some rest /\
    pts = octants x0 y0 x y ++ rest.
Proof.
  intros Hpts Hxy. cbn [drawBall_loop] in Hpts. rewrite Hxy in Hpts.
  destruct (draw_octants x0 y0 x y) as [o|] eqn:Ho; [|discriminate Hpts].
  apply draw_octants_Some in Ho. subst o. cbn [mbind option_bind] in Hpts.
  match type of Hpts with
  | (?m ≫= _) = _ =>
      destruct m as [[[y1 err1] dy1]|] eqn:E1; [|discriminate Hpts]
  end.
  cbn [mbind option_bind] in Hpts.
  match type of Hpts with
  | (?m ≫= _) = _ =>
      destruct m as [[[x2 dx2] err2]|] eqn:E2; [|discriminate Hpts]
  end.
  cbn [mbind option_bind] in Hpts.
  destruct (drawBall_loop fuel r x0 y0 x2 y1 dx2 dy1 err2) as [rest|] eqn:Hrest;
    [|discriminate Hpts].
  cbn [mbind option_bind] in Hpts. injection Hpts as <-.
  exists x2, y1, dx2, dy1, err2, rest. split; [exact Hrest|reflexivity].
Qed.

Lemma drawBall_loop_mirrored (r x0 y0 : Z) :
  forall (fuel : nat) (x y dx dy err : Z) (pts : list point) (p : point),
    drawBall_loop fuel r x0 y0 x y dx dy err = Some pts ->
    In p pts ->
    In (mirror_x x0 p) pts /\ In (mirror_y y0 p) pts /\ In (transpose x0 y0 p) pts.
Proof.
  induction fuel as [|fuel IH]; intros x y dx dy err pts p Hpts Hp;
    destruct (x >=? y) eqn:Hxy.
  - cbn [drawBall_loop] in Hpts. rewrite Hxy in Hpts. discriminate Hpts.
  - cbn [drawBall_loop] in Hpts. rewrite Hxy in Hpts.
    injection Hpts as <-. destruct Hp.
  - destruct (drawBall_loop_step _ _ _ _ _ _ _ _ _ _ Hpts Hxy)
      as (x' & y' & dx' & dy' & err' & rest & Hrest & ->).
    apply in_app_or in Hp as [Hp|Hp];
      first [ destruct (octants_mirrored x0 y0 x y p Hp) as (H1 & H2 & H3)
            | destruct (IH _ _ _ _ _ rest p Hrest Hp) as (H1 & H2 & H3) ];
      repeat split; apply in_or_app; auto.
  - cbn [drawBall_loop] in Hpts. rewrite Hxy in Hpts.
    injection Hpts as <-. destruct Hp.
Qed.

End DrawSymmetry.

(** [drawBall] of a ball of radius 0 or more whose centre converts to a
    pixel [(x0, y0)] with room around it is defined and ends, within
    [radius] iterations, and every point it draws lies on the outline of
    the disc: at a distance from [(x0, y0)] that is at most [radius] and
    at least [radius - 1], and inside the square of half side
    [radius - 1] around it. *)
Theorem drawBall_on_outline (ball : Ball float) (x0 y0 : Z) :
  double_to_int (x (pos ball)) = Some x0 ->
  double_to_int (y (pos ball)) = Some y0 ->
  (0 <= radius ball < 2 ^ 30)%Z -> room (radius ball) x0 y0 ->
  exists pts,
    drawBall ball = Some pts /\
    Forall (fun p => on_outline (radius ball) x0 y0 p /\
                     (Z.abs (fst p - x0) <= radius ball - 1)%Z /\
                     (Z.abs (snd p - y0) <= radius ball - 1)%Z) pts.
Proof.
  intros Hx Hy Hr Hroom.
  destruct (drawBall_spec ball x0 y0 Hx Hy Hr Hroom) as (pts & Hpts & Hall & _).
  exists pts. split; assumption.
Qed.

Lemma drawBall_on_outline_witness :
  double_to_int (x (pos at_right_wall)) = Some 1198%Z /\
  double_to_int (y (pos at_right_wall)) = Some 600%Z /\
  (0 <= radius at_right_wall < 2 ^ 30)%Z /\ room (radius at_right_wall) 1198 600 /\
  exists pts,
    drawBall at_right_wall = Some pts /\
    Forall (fun p => on_outline (radius at_right_wall) 1198 600 p /\
                     (Z.abs (fst p - 1198) <= radius at_right_wall - 1)%Z /\
                     (Z.abs (snd p - 600) <= radius at_right_wall - 1)%Z) pts.
Proof.
  assert (room (radius at_right_wall) 1198 600) as Hroom
    by (unfold room; vm_compute; repeat split; discriminate).
  assert (0 <= radius at_right_wall < 2 ^ 30)%Z as Hr by (cbn; lia).
  split; [reflexivity|]. split; [reflexivity|]. split; [exact Hr|]. split; [exact Hroom|].
  exact (drawBall_on_outline at_right_wall 1198 600 eq_refl eq_refl Hr Hroom).
Defined.

(** Lemma for the symmetry: whatever [drawBall] draws is closed under
    the three mirrorings. *)
Lemma drawBall_mirrored (ball : Ball float) (x0 y0 : Z) (pts : list point) :
  double_to_int (x (pos ball)) = Some x0 ->
  double_to_int (y (pos ball)) = Some y0 ->
  drawBall ball = Some pts ->
  forall p, In p pts ->
    In (mirror_x x0 p) pts /\ In (mirror_y y0 p) pts /\ In (transpose x0 y0 p) pts.
Proof.
  intros Hx Hy. unfold drawBall. rewrite Hx, Hy. cbn [mbind option_bind].
  unfold drawBall_at.
  destruct (int_of (radius ball - 1)) as [x1|]; [|discriminate].
  cbn [mbind option_bind].
  destruct (shl1 (radius ball)) as [r2|]; [|discriminate].
  cbn [mbind option_bind].
  destruct (int_of (1 - r2)) as [err|]; [|discriminate].
  cbn [mbind option_bind].
  intros Hpts p Hp.
  exact (drawBall_loop_mirrored _ _ _ _ _ _ _ _ _ _ _ Hpts Hp).
Qed.

(** The points [drawBall] draws are symmetric: with a point, its mirror
    images in the vertical line, the horizontal line and the diagonal
    through the centre pixel are drawn as well. *)
Theorem drawBall_symmetric (ball : Ball float) (x0 y0 : Z) :
  double_to_int (x (pos ball)) = Some x0 ->
  double_to_int (y (pos ball)) = Some y0 ->
  (0 <= radius ball < 2 ^ 30)%Z -> room (radius ball) x0 y0 ->
  exists pts,
    drawBall ball = Some pts /\
    forall p, In p pts ->
      In (mirror_x x0 p) pts /\ In (mirror_y y0 p) pts /\ In (transpose x0 y0 p) pts.
Proof.
  intros Hx Hy Hr Hroom.
  destruct (drawBall_spec ball x0 y0 Hx Hy Hr Hroom) as (pts & Hpts & _).
  exists pts. split; [exact Hpts|].
  exact (drawBall_mirrored ball x0 y0 pts Hx Hy Hpts).
Qed.

Lemma drawBall_symmetric_witness :
  double_to_int (x (pos at_right_wall)) = Some 1198%Z /\
  double_to_int (y (pos at_right_wall)) = Some 600%Z /\
  (0 <= radius at_right_wall < 2 ^ 30)%Z /\ room (radius at_right_wall) 1198 600 /\
  exists pts,
    drawBall at_right_wall = Some pts /\
    forall p, In p pts ->
      In (mirror_x 1198 p) pts /\ In (mirror_y 600 p) pts /\ In (transpose 1198 600 p) pts.
Proof.
  assert (room (radius at_right_wall) 1198 600) as Hroom
    by (unfold room; vm_compute; repeat split; discriminate).
  assert (0 <= radius at_right_wall < 2 ^ 30)%Z as Hr by (cbn; lia).
  split; [reflexivity|]. split; [reflexivity|]. split; [exact Hr|]. split; [exact Hroom|].
  exact (drawBall_symmetric at_right_wall 1198 600 eq_refl eq_refl Hr Hroom).
Defined.

(** A ball of radius 0 is not drawn at all; a ball of radius
    [radius >= 1] is drawn with at least 8 and at most [8 * radius] calls
    of [SDL_RenderDrawPoint], the first of them at the pixel
    [radius - 1] to the right of the centre pixel. *)
Theorem drawBall_size (ball : Ball float) (x0 y0 : Z) :
  double_to_int (x (pos ball)) = Some x0 ->
  double_to_int (y (pos ball)) = Some y0 ->
  (0 <= radius ball < 2 ^ 30)%Z -> room (radius ball) x0 y0 ->
  exists pts,
    drawBall ball = Some pts /\
    (radius ball = 0%Z -> pts = []) /\
    ((1 <= radius ball)%Z ->
       head pts = Some (x0 + (radius ball - 1), y0 + 0)%Z /\
       (8 <= Z.of_nat (length pts) <= 8 * radius ball)%Z).
Proof.
  intros Hx Hy Hr Hroom.
  destruct (drawBall_spec ball x0 y0 Hx Hy Hr Hroom) as (pts & Hpts & _ & Hlen & Hhead).
  exists pts. split; [exact Hpts|]. split.
  - intros H0. destruct pts as [|p pts]; [reflexivity|]. cbn [length] in Hlen. lia.
  - intros H1. destruct (Hhead H1) as (rest & ->).
    split; [reflexivity|]. split; [|exact Hlen].
    rewrite length_app. cbn [length octants]. lia.
Qed.

Lemma drawBall_size_witness :
  double_to_int (x (pos at_right_wall)) = Some 1198%Z /\
  double_to_int (y (pos at_right_wall)) = Some 600%Z /\
  (0 <= radius at_right_wall < 2 ^ 30)%Z /\ room (radius at_right_wall) 1198 600 /\
  exists pts,
    drawBall at_right_wall = Some pts /\
    (radius at_right_wall = 0%Z -> pts = []) /\
    ((1 <= radius at_right_wall)%Z ->
       head pts = Some (1198 + (radius at_right_wall - 1), 600 + 0)%Z /\
       (8 <= Z.of_nat (length pts) <= 8 * radius at_right_wall)%Z).
Proof.
  assert (room (radius at_right_wall) 1198 600) as Hroom
    by (unfold room; vm_compute; repeat split; discriminate).
  assert (0 <= radius at_right_wall < 2 ^ 30)%Z as Hr by (cbn; lia).
  split; [reflexivity|]. split; [reflexivity|]. split; [exact Hr|]. split; [exact Hroom|].
  exact (drawBall_size at_right_wall 1198 600 eq_refl eq_refl Hr Hroom).
Defined.

(** * The size of a subspace *)

Section SizingFacts.
Local Open Scope Z_scope.

Lemma initial_size_ok (radius : Z) :
  INT_MIN <= 8 * radius <= INT_MAX -> initial_size radius = Some (8 * radius).
Proof.
  intros Hr. destruct int_range as [Hmin Hmax]. unfold initial_size, BALLS_PER_SUBSPACE.
  rewrite (int_of_ok (radius * 2)) by lia. cbn [mbind option_bind].
  rewrite (int_of_ok (radius * 2 * 4)) by lia. f_equal. lia.
Qed.

(** From a positive size below a divisor [d] of the extent, the loop
    ends at the first divisor it meets. *)
Lemma fit_subspace_upto (extent d : Z) :
  0 < d <= INT_MAX -> Z.rem extent d = 0 ->
  forall (fuel : nat) (size : Z),
    0 < size <= d -> d - size <= Z.of_nat fuel ->
    exists s, fit_subspace fuel extent size = Fits s /\
              size <= s <= d /\ Z.rem extent s = 0 /\
              forall t, size <= t < s -> Z.rem extent t <> 0.
Proof.
  intros Hd Hrem. destruct int_range as [Hmin Hmax].
  induction fuel as [|fuel IH]; intros size Hsize Hfuel;
    cbn [fit_subspace];
    (replace (size =? 0) with false by lia);
    destruct (Z.rem extent size =? 0) eqn:E.
  - exists size. repeat split; try lia.
  - assert (size = d) as -> by lia. lia.
  - exists size. repeat split; try lia.
  - assert (size <> d) by (intros ->; lia).
    rewrite (int_of_ok (size + 1)) by lia.
    destruct (IH (size + 1)) as (s & -> & Hs & Hdiv & Hmin'); try lia.
    exists s. repeat split; try lia.
    intros t Ht. destruct (Z.eq_dec t size) as [->|Hne]; [lia|].
    apply Hmin'. lia.
Qed.

(** Above the extent no size divides it: the loop runs on, up to
    [INT_MAX], and the increment after that is undefined. *)
Lemma fit_subspace_runs (extent : Z) :
  0 < extent ->
  forall (fuel : nat) (size : Z),
    extent < size <= INT_MAX ->
    fit_subspace fuel extent size
    = if size + Z.of_nat fuel <=? INT_MAX
      then StillRunning (size + Z.of_nat fuel) else Overflow.
Proof.
  intros He. destruct int_range as [Hmin Hmax].
  induction fuel as [|fuel IH]; intros size Hsize;
    cbn [fit_subspace];
    (replace (size =? 0) with false by lia);
    rewrite (Z.rem_small extent size) by lia;
    (replace (extent =? 0) with false by lia).
  - change (Z.of_nat 0) with 0. rewrite Z.add_0_r.
    replace (size <=? INT_MAX) with true by lia. reflexivity.
  - rewrite Nat2Z.inj_succ. pose proof (Nat2Z.is_nonneg fuel) as Hfuel.
    destruct (Z.eq_dec size INT_MAX) as [Heq|Hne].
    + rewrite int_of_None by lia.
      rewrite (proj2 (Z.leb_gt _ _)) by lia. reflexivity.
    + rewrite (int_of_ok (size + 1)) by lia. rewrite IH by lia.
      replace (size + 1 + Z.of_nat fuel) with (size + Z.succ (Z.of_nat fuel)) by lia.
      reflexivity.
Qed.

End SizingFacts.

(** For a radius from 1 to 150 the loops of [main] end: both sizes are
    the least divisor of 1200 that is at least [8 * radius], and there is
    at least one subspace. *)
Theorem subspace_size_fits (radius : Z) :
  (1 <= radius <= 150)%Z ->
  exists s,
    (forall fuel, (1200 - 8 * radius <= Z.of_nat fuel)%Z ->
       subspace_size_x fuel radius = Fits s /\ subspace_size_y fuel radius = Fits s) /\
    (8 * radius <= s <= 1200)%Z /\ Z.rem 1200 s = 0%Z /\
    (forall t, (8 * radius <= t < s)%Z -> Z.rem 1200 t <> 0%Z) /\
    (1 <= subspace_count s s)%Z.
Proof.
  intros Hr. destruct int_range as [Himin Himax].
  assert (0 < 1200 <= INT_MAX)%Z as H1200 by lia.
  destruct (fit_subspace_upto 1200 1200 H1200 eq_refl
              (Z.to_nat (1200 - 8 * radius)) (8 * radius)%Z ltac:(lia) ltac:(lia))
    as (s & Hfit & Hs & Hdiv & Hmin).
  exists s. split; [|split; [exact Hs|split; [exact Hdiv|split; [exact Hmin|]]]].
  - intros fuel Hfuel.
    destruct (fit_subspace_upto 1200 1200 H1200 eq_refl
                fuel (8 * radius)%Z ltac:(lia) ltac:(lia))
      as (s' & Hfit' & Hs' & Hdiv' & Hmin').
    assert (s' = s) as ->.
    { destruct (Z.lt_trichotomy s' s) as [Hlt|[Heq|Hgt]]; [|exact Heq|].
      - exfalso. apply (Hmin s'); [lia|exact Hdiv'].
      - exfalso. apply (Hmin' s); [lia|exact Hdiv]. }
    unfold subspace_size_x, subspace_size_y, SCREEN_WIDTH, SCREEN_HEIGHT.
    rewrite initial_size_ok by lia.
    split; exact Hfit'.
  - unfold subspace_count, SCREEN_WIDTH, SCREEN_HEIGHT.
    assert (1 <= Z.quot 1200 s)%Z as Hq.
    { rewrite Z.quot_div_nonneg by lia.
      apply Z.div_le_lower_bound; lia. }
    nia.
Qed.

Lemma subspace_size_fits_witness :
  (1 <= 5 <= 150)%Z /\
  exists s,
    (forall fuel, (1200 - 8 * 5 <= Z.of_nat fuel)%Z ->
       subspace_size_x fuel 5 = Fits s /\ subspace_size_y fuel 5 = Fits s) /\
    (8 * 5 <= s <= 1200)%Z /\ Z.rem 1200 s = 0%Z /\
    (forall t, (8 * 5 <= t < s)%Z -> Z.rem 1200 t <> 0%Z) /\
    (1 <= subspace_count s s)%Z.
Proof.
  split; [lia|]. apply (subspace_size_fits 5). lia.
Defined.

(** For a radius above 150 the loop of [main] finds no size: after any
    number of increments the size, now [8 * radius] plus that number,
    still does not divide 1200, until the size is [INT_MAX] and the next
    increment is undefined. *)
Theorem subspace_size_overflows (radius : Z) (fuel : nat) :
  (150 < radius)%Z ->
  subspace_size_x fuel radius
  = if (8 * radius + Z.of_nat fuel <=? INT_MAX)%Z
    then StillRunning (8 * radius + Z.of_nat fuel) else Overflow.
Proof.
  intros Hr. destruct int_range as [Himin Himax].
  unfold subspace_size_x, SCREEN_WIDTH.
  destruct (Z_le_gt_dec (8 * radius) INT_MAX) as [Hle|Hgt].
  - rewrite initial_size_ok by lia. apply fit_subspace_runs; lia.
  - rewrite (proj2 (Z.leb_gt _ _)) by lia.
    unfold initial_size, BALLS_PER_SUBSPACE.
    destruct (int_of (radius * 2)) as [r2|] eqn:E; [|reflexivity].
    apply int_of_Some in E as [-> _]. cbn [mbind option_bind].
    rewrite int_of_None by lia. reflexivity.
Qed.

Lemma subspace_size_overflows_witness :
  (150 < 151)%Z /\
  subspace_size_x 1000 151 = StillRunning (8 * 151 + Z.of_nat 1000).
Proof.
  split; [lia|]. exact (subspace_size_overflows 151%Z 1000%nat ltac:(lia)).
Defined.

(** A radius of 0 makes [main] divide by zero, at the first test of its
    loop. *)
Theorem subspace_size_zero (fuel : nat) :
  subspace_size_x fuel 0 = DivisionByZero /\ subspace_size_y fuel 0 = DivisionByZero.
Proof. destruct fuel; split; reflexivity. Qed.

(** A negative radius is taken as it is: the loop ends with a negative
    size, at [-1] at the latest. *)
Theorem subspace_size_negative (radius : Z) :
  (INT_MIN <= 8 * radius)%Z -> (radius <= -1)%Z ->
  exists s,
    subspace_size_x (Z.to_nat (- 8 * radius)) radius = Fits s /\
    (8 * radius <= s <= -1)%Z /\ Z.rem 1200 s = 0%Z.
Proof.
  intros Hlow Hr. destruct int_range as [Himin Himax].
  unfold subspace_size_x, SCREEN_WIDTH.
  rewrite initial_size_ok by lia.
  assert (forall (fuel : nat) (size : Z),
             (INT_MIN <= size <= -1)%Z -> (-1 - size <= Z.of_nat fuel)%Z ->
             exists s, fit_subspace fuel 1200 size = Fits s /\
                       (size <= s <= -1)%Z /\ Z.rem 1200 s = 0%Z) as Hloop.
  { induction fuel as [|fuel IH]; intros size Hsize Hfuel; cbn [fit_subspace];
      (replace (size =? 0)%Z with false by lia);
      destruct (Z.rem 1200 size =? 0)%Z eqn:E.
    - exists size. repeat split; lia.
    - assert (size = -1)%Z as -> by lia. discriminate E.
    - exists size. repeat split; lia.
    - assert (size <> -1)%Z by (intros ->; discriminate E).
      rewrite (int_of_ok (size + 1)) by lia.
      destruct (IH (size + 1)%Z) as (s & -> & Hs & Hdiv); try lia.
      exists s. repeat split; lia. }
  apply Hloop; lia.
Qed.

Lemma subspace_size_negative_witness :
  (INT_MIN <= 8 * -1)%Z /\ (-1 <= -1)%Z /\
  exists s,
    subspace_size_x (Z.to_nat (- 8 * -1)) (-1) = Fits s /\
    (8 * -1 <= s <= -1)%Z /\ Z.rem 1200 s = 0%Z.
Proof.
  assert (INT_MIN <= 8 * -1)%Z as Hlow by (vm_compute; discriminate).
  split; [exact Hlow|]. split; [lia|].
  exact (subspace_size_negative (-1) Hlow ltac:(lia)).
Defined.

(** * More facts about binary64 arithmetic *)
Module Binary64Laws.
Local Open Scope float_scope.

Lemma SFmul_comm (f g : spec_float) : SF64mul f g = SF64mul g f.
Proof.
  destruct f as [s|s| |s m e], g as [t|t| |t n k]; cbn [SF64mul SFmul];
    rewrite ?(xorb_comm s t); try reflexivity.
  rewrite (Pos.mul_comm m n), (Z.add_comm e k). reflexivity.
Qed.

Lemma mul_comm (a b : float) : a * b = b * a.
Proof.
  apply Prim2SF_inj. rewrite !FloatAxioms.mul_spec. apply SFmul_comm.
Qed.

(** A number and its opposite have the same square. *)
Lemma sqr_opp (v : float) : (- v) * (- v) = v * v.
Proof.
  apply Prim2SF_inj. rewrite !FloatAxioms.mul_spec, FloatAxioms.opp_spec.
  apply Binary64.SFmul_opp_opp.
Qed.

Lemma sub_nan_l (a : float) : nan - a = nan.
Proof.
  apply Prim2SF_inj. rewrite FloatAxioms.sub_spec. change (Prim2SF nan) with S754_nan.
  reflexivity.
Qed.

Lemma add_nan_l (a : float) : nan + a = nan.
Proof.
  apply Prim2SF_inj. rewrite FloatAxioms.add_spec. change (Prim2SF nan) with S754_nan.
  reflexivity.
Qed.

(** No comparison with NaN holds. *)
Lemma ltb_nan_l (a : float) : (nan <? a) = false.
Proof.
  rewrite FloatAxioms.ltb_spec. change (Prim2SF nan) with S754_nan. reflexivity.
Qed.

Lemma ltb_nan_r (a : float) : (a <? nan) = false.
Proof.
  rewrite FloatAxioms.ltb_spec. change (Prim2SF nan) with S754_nan.
  destruct (Prim2SF a); reflexivity.
Qed.

End Binary64Laws.

(** * Sums that are numbers *)
Module Binary64Finite.
Local Open Scope Z_scope.

(** Rounding keeps a mantissa that is not negative so. *)
Lemma shr_1_nonneg (mrs : shr_record) : 0 <= shr_m mrs -> 0 <= shr_m (shr_1 mrs).
Proof. destruct mrs as [[|[p|p|]|p] r s]; cbn; lia. Qed.

Lemma iter_shr_nonneg (n : positive) :
  forall mrs, 0 <= shr_m mrs -> 0 <= shr_m (SpecFloat.iter_pos shr_1 n mrs).
Proof.
  induction n as [n IH|n IH|]; intros mrs Hm; cbn [SpecFloat.iter_pos].
  - apply IH, IH, shr_1_nonneg, Hm.
  - apply IH, IH, Hm.
  - apply shr_1_nonneg, Hm.
Qed.

Lemma shr_fexp_nonneg (m e : Z) (l : location) :
  0 <= m -> 0 <= shr_m (fst (shr_fexp prec emax m e l)).
Proof.
  intros Hm. unfold shr_fexp, shr.
  assert (0 <= shr_m (shr_record_of_loc m l)) as H0
    by (destruct l as [|[]]; exact Hm).
  destruct (fexp prec emax (Zdigits2 m + e) - e); cbn [fst];
    [exact H0 | apply iter_shr_nonneg, H0 | exact H0].
Qed.

Lemma round_nearest_even_nonneg (m : Z) (l : location) :
  0 <= m -> 0 <= round_nearest_even m l.
Proof.
  intros Hm. unfold round_nearest_even.
  destruct l as [|[]]; try destruct (Z.even m); lia.
Qed.

(** The rounding of a mantissa that is not negative is a number or an
    infinity. *)
Lemma round_aux_not_nan (s : bool) (m e : Z) (l : location) :
  0 <= m -> binary_round_aux prec emax s m e l <> S754_nan.
Proof.
  intros Hm. unfold binary_round_aux.
  pose proof (shr_fexp_nonneg m e l Hm) as H1.
  destruct (shr_fexp prec emax m e l) as [mrs' e']. cbn [fst] in H1.
  pose proof (shr_fexp_nonneg _ e' loc_Exact
                (round_nearest_even_nonneg _ (loc_of_shr_record mrs') H1)) as H2.
  destruct (shr_fexp prec emax _ e' loc_Exact) as [mrs'' e'']. cbn [fst] in H2.
  destruct (shr_m mrs'') as [|p|p]; [discriminate| |lia].
  destruct (e'' <=? emax - prec); discriminate.
Qed.

Lemma normalize_not_nan (m e : Z) (szero : bool) :
  binary_normalize prec emax m e szero <> S754_nan.
Proof.
  unfold binary_normalize, binary_round.
  destruct m as [|p|p]; [discriminate| |];
    destruct (shl_align _ _ _) as [mz ez]; apply round_aux_not_nan; lia.
Qed.

(** The sum and the difference of a number or an infinity and a finite
    number are no NaN. *)
Lemma SFadd_not_nan (f g : spec_float) :
  f <> S754_nan -> SFfinite g = true -> SF64add f g <> S754_nan.
Proof.
  unfold SF64add.
  destruct f as [sf|sf| |sf mf ef], g as [sg|sg| |sg mg eg];
    cbn [SFfinite SFadd]; intros Hf Hg;
    try discriminate; try congruence;
    try (destruct sf, sg; discriminate).
  apply normalize_not_nan.
Qed.

Lemma SFsub_not_nan (f g : spec_float) :
  f <> S754_nan -> SFfinite g = true -> SF64sub f g <> S754_nan.
Proof.
  unfold SF64sub.
  destruct f as [sf|sf| |sf mf ef], g as [sg|sg| |sg mg eg];
    cbn [SFfinite SFsub]; intros Hf Hg;
    try discriminate; try congruence;
    try (destruct sf, sg; discriminate).
  apply normalize_not_nan.
Qed.

Lemma finite_not_nan (d : float) : finite d = true -> Prim2SF d <> S754_nan.
Proof. unfold finite. destruct (Prim2SF d); cbn; congruence. Qed.

Lemma nan_spec (d : float) : Prim2SF d = S754_nan -> d = PrimFloat.nan.
Proof. intros E. apply Prim2SF_inj. rewrite E. reflexivity. Qed.

(** Of two numbers or infinities, one is below the other or the other
    is at most the one. *)
Lemma ltb_false_leb (u v : float) :
  Prim2SF u <> S754_nan -> Prim2SF v <> S754_nan ->
  PrimFloat.ltb u v = false -> PrimFloat.leb v u = true.
Proof.
  rewrite FloatAxioms.ltb_spec, FloatAxioms.leb_spec. unfold SFltb, SFleb.
  rewrite (Binary64.SFcompare_antisym (Prim2SF u) (Prim2SF v)).
  intros Hu Hv.
  destruct (Prim2SF u) as [su|su| |su mu eu], (Prim2SF v) as [sv|sv| |sv mv ev];
    try congruence;
    match goal with
    | |- context [SFcompare ?f ?g] => destruct (SFcompare f g) as [[]|] eqn:E
    end; cbn; try congruence; discriminate E.
Qed.

(** The opposite of a finite number is finite. *)
Lemma finite_opp (v : float) : finite (- v)%float = finite v.
Proof.
  unfold finite. rewrite FloatAxioms.opp_spec.
  destruct (Prim2SF v); reflexivity.
Qed.

End Binary64Finite.

(** * The wall reflector, again *)

(** A ball with no edge outside the arena is left as it is. *)
Lemma bounceWall_in_arena (a : Ball float) :
  in_arena a = true -> bounceWall a = a.
Proof.
  unfold in_arena, crosses. intros Hin.
  apply andb_prop in Hin as [Hx Hy].
  apply negb_true_iff in Hx. apply negb_true_iff in Hy.
  unfold bounceWall. rewrite Hx, Hy. reflexivity.
Qed.

(** Checked for each radius from 0 to 599: a centre at [radius + 1] or
    at [1200 - radius - 1] puts no edge outside [0 .. 1200]. *)
Lemma clamp_in_arena (r : Z) :
  (0 <= r <= 599)%Z ->
  crosses 1200 r (int_to_double (r + 1)) = false /\
  crosses 1200 r (int_to_double (1200 - r - 1)) = false.
Proof.
  intros Hr.
  assert (forallb (fun n => let r := Z.of_nat n in
                            negb (crosses 1200 r (int_to_double (r + 1)))
                            && negb (crosses 1200 r (int_to_double (1200 - r - 1))))
                  (seq 0 600) = true) as Hall by (vm_compute; reflexivity).
  rewrite forallb_forall in Hall.
  specialize (Hall (Z.to_nat r)). cbv zeta in Hall.
  rewrite Z2Nat.id in Hall by lia.
  assert (In (Z.to_nat r) (seq 0 600)) as Hin by (apply in_seq; lia).
  apply Hall in Hin. apply andb_prop in Hin as [H1 H2].
  apply negb_true_iff in H1. apply negb_true_iff in H2. split; assumption.
Qed.

Lemma reflect_axis_settles (r : Z) (p v : float) :
  (0 <= r <= 599)%Z ->
  crosses 1200 r (fst (reflect_axis 1200 r p v)) = false.
Proof.
  intros Hr. unfold reflect_axis.
  destruct (crosses 1200 r p) eqn:Hc; [|exact Hc].
  destruct (clamp_in_arena r Hr) as [Hnear Hfar]. cbn [fst].
  destruct (dlt _ _); assumption.
Qed.

Lemma bounceWall_lands (a : Ball float) :
  (0 <= radius a <= 599)%Z -> in_arena (bounceWall a) = true.
Proof.
  intros Hr. destruct (bounceWall_axes a) as (Hx & Hy & Hrad & _).
  unfold in_arena. rewrite Hrad.
  apply (f_equal fst) in Hx. apply (f_equal fst) in Hy. cbn [fst] in Hx, Hy.
  rewrite Hx, Hy. unfold SCREEN_WIDTH, SCREEN_HEIGHT.
  rewrite !reflect_axis_settles by exact Hr. reflexivity.
Qed.

(** After [bounceWall] no edge of a ball of radius 0 to 599 lies outside
    the arena, wherever the ball was, and a second [bounceWall] changes
    nothing. *)
Theorem bounceWall_settles (a : Ball float) :
  (0 <= radius a <= 599)%Z ->
  in_arena (bounceWall a) = true /\ bounceWall (bounceWall a) = bounceWall a.
Proof.
  intros Hr. pose proof (bounceWall_lands a Hr) as Hin.
  split; [exact Hin|]. apply bounceWall_in_arena. exact Hin.
Qed.

Lemma bounceWall_settles_witness :
  (0 <= radius at_right_wall <= 599)%Z /\
  in_arena at_right_wall = false /\
  in_arena (bounceWall at_right_wall) = true /\
  bounceWall (bounceWall at_right_wall) = bounceWall at_right_wall.
Proof.
  assert (0 <= radius at_right_wall <= 599)%Z as Hr by (cbn; lia).
  split; [exact Hr|]. split; [reflexivity|].
  exact (bounceWall_settles at_right_wall Hr).
Defined.

(** [bounceWall] keeps the speed: the square of each velocity component,
    the magnitude of the velocity and its dot product with itself are
    exactly what they were. *)
Theorem bounceWall_keeps_speed (a : Ball float) :
  pow2 (x (dir (bounceWall a))) = pow2 (x (dir a)) /\
  pow2 (y (dir (bounceWall a))) = pow2 (y (dir a)) /\
  magnitude (dir (bounceWall a)) = magnitude (dir a) /\
  dot (dir (bounceWall a)) (dir (bounceWall a)) = dot (dir a) (dir a).
Proof.
  assert (pow2 (x (dir (bounceWall a))) = pow2 (x (dir a)) /\
          pow2 (y (dir (bounceWall a))) = pow2 (y (dir a))) as [Hx Hy].
  { destruct (bounceWall_axes a) as (Ex & Ey & _ & _).
    apply (f_equal snd) in Ex. apply (f_equal snd) in Ey. cbn [snd] in Ex, Ey.
    rewrite Ex, Ey. unfold reflect_axis.
    split.
    - destruct (crosses _ _ (x (pos a))); cbn [snd]; [|reflexivity].
      change (dmul (x (dir a)) (of_int (-1)))
        with (PrimFloat.mul (x (dir a)) (-1)%float).
      rewrite Binary64.mul_m1. apply Binary64Laws.sqr_opp.
    - destruct (crosses _ _ (y (pos a))); cbn [snd]; [|reflexivity].
      change (dmul (y (dir a)) (of_int (-1)))
        with (PrimFloat.mul (y (dir a)) (-1)%float).
      rewrite Binary64.mul_m1. apply Binary64Laws.sqr_opp. }
  split; [exact Hx|]. split; [exact Hy|].
  unfold magnitude, dot, pow2. unfold pow2 in Hx, Hy.
  rewrite Hx, Hy. split; reflexivity.
Qed.

(** * Inside the arena *)

(** Checked for each value: the radii and the extents convert to
    finite numbers. *)
Lemma small_int_finite (z : Z) :
  (0 <= z <= 1200)%Z -> finite (int_to_double z) = true.
Proof.
  intros Hz.
  assert (forallb (fun n => finite (int_to_double (Z.of_nat n))) (seq 0 1201) = true)
    as Hall by (vm_compute; reflexivity).
  rewrite forallb_forall in Hall.
  specialize (Hall (Z.to_nat z)). rewrite Z2Nat.id in Hall by lia.
  apply Hall. apply in_seq. lia.
Qed.

(** A coordinate that is a number or an infinity and passes neither
    test of [bounceWall] is confined. *)
Lemma crosses_false_confined (r : Z) (p : float) :
  (0 <= r <= 599)%Z -> Prim2SF p <> S754_nan ->
  crosses 1200 r p = false -> confined 1200 r p = true.
Proof.
  intros Hr Hp Hc. unfold crosses in Hc. apply orb_false_elim in Hc as [H1 H2].
  cbn [dlt dsub dadd of_int Double_binary64] in H1, H2.
  pose proof (small_int_finite r ltac:(lia)) as HR.
  unfold confined. apply andb_true_intro. split.
  - apply Binary64Finite.ltb_false_leb; [| |exact H1].
    + rewrite FloatAxioms.sub_spec. apply Binary64Finite.SFsub_not_nan; assumption.
    + discriminate.
  - apply Binary64Finite.ltb_false_leb; [| |exact H2].
    + discriminate.
    + rewrite FloatAxioms.add_spec. apply Binary64Finite.SFadd_not_nan; assumption.
Qed.

(** Checked for each radius from 0 to 599: a centre at [radius + 1] or
    at [1200 - radius - 1] is confined. *)
Lemma clamp_confined (r : Z) :
  (0 <= r <= 599)%Z ->
  confined 1200 r (int_to_double (r + 1)) = true /\
  confined 1200 r (int_to_double (1200 - r - 1)) = true.
Proof.
  intros Hr.
  assert (forallb (fun n => let r := Z.of_nat n in
                            confined 1200 r (int_to_double (r + 1))
                            && confined 1200 r (int_to_double (1200 - r - 1)))
                  (seq 0 600) = true) as Hall by (vm_compute; reflexivity).
  rewrite forallb_forall in Hall.
  specialize (Hall (Z.to_nat r)). cbv zeta in Hall.
  rewrite Z2Nat.id in Hall by lia.
  apply andb_prop. apply Hall. apply in_seq. lia.
Qed.

(** A confined coordinate is finite. *)
Lemma confined_finite (r : Z) (p : float) :
  (0 <= r <= 599)%Z -> confined 1200 r p = true -> finite p = true.
Proof.
  intros Hr Hc. pose proof (small_int_finite r ltac:(lia)) as HR.
  unfold confined in Hc. apply andb_prop in Hc as [H1 H2].
  rewrite FloatAxioms.leb_spec in H1, H2.
  rewrite FloatAxioms.sub_spec in H1. rewrite FloatAxioms.add_spec in H2.
  change (Prim2SF (int_to_double 0)) with (S754_zero false) in H1.
  change (Prim2SF (int_to_double 1200))
    with (S754_finite false 5277655813324800 (-42)) in H2.
  unfold finite in *.
  destruct (Prim2SF (int_to_double r)) as [sr|sr| |sr mr er]; try discriminate HR;
    destruct (Prim2SF p) as [sp|[]| |sp mp ep]; try reflexivity;
    cbn in H1, H2; discriminate.
Qed.

(** After the reflection a coordinate that was a number or an infinity
    is confined. *)
Lemma reflect_axis_confined (r : Z) (p v : float) :
  (0 <= r <= 599)%Z -> Prim2SF p <> S754_nan ->
  confined 1200 r (fst (reflect_axis 1200 r p v)) = true.
Proof.
  intros Hr Hp. unfold reflect_axis.
  destruct (crosses 1200 r p) eqn:Hc.
  - destruct (clamp_confined r Hr) as [Hnear Hfar]. cbn [fst].
    destruct (dlt _ _); assumption.
  - cbn [fst]. apply crosses_false_confined; assumption.
Qed.

(** The reflection keeps a finite velocity finite. *)
Lemma reflect_axis_finite (extent r : Z) (p v : float) :
  finite v = true -> finite (snd (reflect_axis extent r p v)) = true.
Proof.
  intros Hv. unfold reflect_axis.
  destruct (crosses extent r p); cbn [snd]; [|exact Hv].
  change (dmul v (of_int (-1))) with (PrimFloat.mul v (-1)%float).
  rewrite Binary64.mul_m1, Binary64Finite.finite_opp. exact Hv.
Qed.

(** A ball that passes no test of [bounceWall] lies inside the arena,
    on each axis, unless its coordinate is not a number. *)
Lemma in_arena_inside_or_lost (a : Ball float) :
  (0 <= radius a <= 599)%Z -> in_arena a = true -> inside_or_lost a.
Proof.
  intros Hr Hin. unfold in_arena in Hin. apply andb_prop in Hin as [Hx Hy].
  apply negb_true_iff in Hx. apply negb_true_iff in Hy.
  unfold SCREEN_WIDTH in Hx. unfold SCREEN_HEIGHT in Hy.
  unfold inside_or_lost, SCREEN_WIDTH, SCREEN_HEIGHT. split.
  - destruct (Prim2SF (x (pos a))) as [s|s| |s m e] eqn:E;
      try (right; apply crosses_false_confined;
           [exact Hr | rewrite E; discriminate | exact Hx]).
    left. apply Binary64Finite.nan_spec. exact E.
  - destruct (Prim2SF (y (pos a))) as [s|s| |s m e] eqn:E;
      try (right; apply crosses_false_confined;
           [exact Hr | rewrite E; discriminate | exact Hy]).
    left. apply Binary64Finite.nan_spec. exact E.
Qed.

(** A finite ball that is moved and reflected lies inside the arena,
    and is finite. *)
Lemma advance_inside (a : Ball float) :
  (0 <= radius a <= 599)%Z -> finite_ball a = true ->
  inside (advance a) = true /\ finite_ball (advance a) = true.
Proof.
  intros Hr Hf. unfold finite_ball in Hf.
  apply andb_prop in Hf as [Hf Hvy]. apply andb_prop in Hf as [Hf Hvx].
  apply andb_prop in Hf as [Hpx Hpy].
  unfold advance.
  destruct (bounceWall_axes (moveBall a)) as (Ex & Ey & Erad & _).
  change (radius (moveBall a)) with (radius a) in Ex, Ey, Erad.
  change (x (dir (moveBall a))) with (x (dir a)) in Ex.
  change (y (dir (moveBall a))) with (y (dir a)) in Ey.
  change (x (pos (moveBall a))) with (PrimFloat.add (x (pos a)) (x (dir a))) in Ex.
  change (y (pos (moveBall a))) with (PrimFloat.add (y (pos a)) (y (dir a))) in Ey.
  unfold SCREEN_WIDTH in Ex. unfold SCREEN_HEIGHT in Ey.
  assert (Prim2SF (x (pos a) + x (dir a))%float <> S754_nan) as Hmx.
  { rewrite FloatAxioms.add_spec. apply Binary64Finite.SFadd_not_nan;
      [apply Binary64Finite.finite_not_nan|]; assumption. }
  assert (Prim2SF (y (pos a) + y (dir a))%float <> S754_nan) as Hmy.
  { rewrite FloatAxioms.add_spec. apply Binary64Finite.SFadd_not_nan;
      [apply Binary64Finite.finite_not_nan|]; assumption. }
  pose proof (reflect_axis_confined (radius a) _ (x (dir a)) Hr Hmx) as Cx.
  pose proof (reflect_axis_confined (radius a) _ (y (dir a)) Hr Hmy) as Cy.
  pose proof (reflect_axis_finite 1200 (radius a) (x (pos a) + x (dir a))%float
                _ Hvx) as Vx.
  pose proof (reflect_axis_finite 1200 (radius a) (y (pos a) + y (dir a))%float
                _ Hvy) as Vy.
  rewrite <- Ex in Cx, Vx. rewrite <- Ey in Cy, Vy. cbn [fst snd] in Cx, Cy, Vx, Vy.
  split.
  - unfold inside, SCREEN_WIDTH, SCREEN_HEIGHT. rewrite Erad, Cx, Cy. reflexivity.
  - unfold finite_ball.
    rewrite (confined_finite _ _ Hr Cx), (confined_finite _ _ Hr Cy), Vx, Vy.
    reflexivity.
Qed.

(** * Balls that are lost *)

Lemma crosses_nan (extent r : Z) : crosses extent r PrimFloat.nan = false.
Proof.
  unfold crosses. cbn [dsub dadd dlt Double_binary64].
  rewrite Binary64Laws.sub_nan_l, Binary64Laws.add_nan_l.
  rewrite Binary64Laws.ltb_nan_l, Binary64Laws.ltb_nan_r. reflexivity.
Qed.

Lemma lost_advance (a : Ball float) :
  lost (moveBall a) -> lost (advance a) /\ dir (advance a) = dir a.
Proof.
  intros [Hx Hy]. unfold advance.
  destruct (bounceWall_axes (moveBall a)) as (Ex & Ey & _ & _).
  unfold reflect_axis in Ex, Ey. rewrite Hx in Ex. rewrite Hy in Ey.
  rewrite crosses_nan in Ex, Ey.
  injection Ex as Epx Evx. injection Ey as Epy Evy.
  split; [split; assumption|].
  destruct (dir (bounceWall (moveBall a))) as [vx vy].
  cbn [x y] in Evx, Evy. rewrite Evx, Evy.
  destruct a as [r p [dx dy] ss]. reflexivity.
Qed.

(** A ball whose velocity or position is (NaN, NaN), as [bounce] at one
    centre leaves it, is lost for good: a frame moves it to the position
    (NaN, NaN) and keeps it there with its velocity, it overlaps no ball,
    on either side of the test, and the conversion of its centre to a
    pixel, with which [drawBall] begins, is undefined. *)
Theorem lost_for_good (a : Ball float) :
  (dir a = mkVec2 PrimFloat.nan PrimFloat.nan \/ lost a) ->
  lost (advance a) /\ dir (advance a) = dir a /\
  (forall b, overlaps (advance a) b = false /\ overlaps b (advance a) = false) /\
  double_to_int (x (pos (advance a))) = None /\
  double_to_int (y (pos (advance a))) = None /\
  drawBall (advance a) = None.
Proof.
  intros Ha.
  assert (lost (moveBall a)) as Hm.
  { unfold lost, moveBall. cbn [pos set_pos set_x set_y x y dadd Double_binary64].
    destruct Ha as [Hd | [Hx Hy]].
    - rewrite Hd. cbn [x y]. rewrite !Binary64.add_nan_r. split; reflexivity.
    - rewrite Hx, Hy, !Binary64Laws.add_nan_l. split; reflexivity. }
  destruct (lost_advance a Hm) as [[Hx Hy] Hd].
  split; [split; assumption|]. split; [exact Hd|]. split.
  - intros b. unfold overlaps, pyth, pow2.
    cbn [dsub dadd dmul dsqrt dlt Double_binary64]. rewrite Hx, Hy.
    rewrite !Binary64Laws.sub_nan_l, !Binary64.sub_nan_r.
    change (PrimFloat.mul PrimFloat.nan PrimFloat.nan) with PrimFloat.nan.
    change (PrimFloat.add PrimFloat.nan PrimFloat.nan) with PrimFloat.nan.
    change (PrimFloat.sqrt PrimFloat.nan) with PrimFloat.nan.
    rewrite !Binary64Laws.ltb_nan_l. split; reflexivity.
  - unfold drawBall. rewrite Hx, Hy. repeat split; reflexivity.
Qed.

Lemma lost_for_good_witness :
  dir wrecked = mkVec2 PrimFloat.nan PrimFloat.nan /\
  lost (advance wrecked) /\ dir (advance wrecked) = dir wrecked /\
  (forall b, overlaps (advance wrecked) b = false /\ overlaps b (advance wrecked) = false) /\
  double_to_int (x (pos (advance wrecked))) = None /\
  double_to_int (y (pos (advance wrecked))) = None /\
  drawBall (advance wrecked) = None.
Proof.
  assert (dir wrecked = mkVec2 PrimFloat.nan PrimFloat.nan) as Hd by reflexivity.
  split; [exact Hd|].
  exact (lost_for_good wrecked (or_introl Hd)).
Defined.

(** * What a frame keeps *)

Section FrameFacts.
Context {D : Type} `{Double D}.
Implicit Types (bs : list (Ball D)) (a b : Ball D) (st : state D).

(** A property of the state that every body of the frame carries one
    step further holds of the whole frame, which ends. *)
Lemma render_from_invariant (amnt : nat) (P : nat -> state D -> Prop) :
  (forall i s s' evs,
      (i < amnt)%nat -> (amnt <= length (balls s))%nat -> P i s ->
      body_outcome amnt i s (s', evs) -> P (S i) s') ->
  forall n k st,
    (k + n = amnt)%nat -> (amnt <= length (balls st))%nat -> P k st ->
    exists st' evs,
      render_from amnt (seq k n) st = Some (st', evs) /\
      length (balls st') = length (balls st) /\ P amnt st'.
Proof.
  intros Hstep. induction n as [|n IH]; intros k st Hk Hlen HP.
  - exists st, []. replace amnt with k by lia. repeat split. exact HP.
  - destruct (render_one_spec amnt k st Hlen ltac:(lia)) as ([st1 evs1] & Hr & Hout).
    pose proof (render_one_length amnt k st st1 evs1 Hlen ltac:(lia) Hr) as Hlen1.
    destruct (IH (S k) st1 ltac:(lia) ltac:(lia)
                 (Hstep k st st1 evs1 ltac:(lia) Hlen HP Hout))
      as (st' & evs & Hrest & Hlen' & HP').
    exists st'. eexists. split; [|split; [lia|exact HP']].
    cbn [seq render_from]. rewrite Hr. cbn [mbind option_bind].
    rewrite Hrest. reflexivity.
Qed.

Lemma advance_keeps (a : Ball D) :
  radius (advance a) = radius a /\ subspaces (advance a) = subspaces a.
Proof.
  unfold advance. destruct (bounceWall_axes (moveBall a)) as (_ & _ & -> & ->).
  split; reflexivity.
Qed.

(** Writing at [i] a ball with the same image under [f] keeps the
    images. *)
Lemma fmap_insert_same {B : Type} (f : Ball D -> B) bs (i : nat) a a' :
  (f <$> bs) !! i = Some (f a) -> f a' = f a -> f <$> <[i := a']> bs = f <$> bs.
Proof.
  intros Hi Hf. rewrite list_fmap_insert, Hf. apply list_insert_id. exact Hi.
Qed.

(** The body of the outer loop keeps the image of the balls under a
    field that [bounce], [moveBall] and [bounceWall] keep. *)
Lemma body_outcome_keeps {B : Type} (f : Ball D -> B) (amnt i : nat) st st' evs :
  (forall a b, f (fst (bounce a b)) = f a /\ f (snd (bounce a b)) = f b) ->
  (forall a, f (advance a) = f a) ->
  body_outcome amnt i st (st', evs) ->
  f <$> balls st' = f <$> balls st.
Proof.
  intros Hb Ha (a & Hi & [(j & b & _ & _ & Hj & E) | [_ E]]);
    injection E as -> _; cbn [balls].
  - destruct (Hb a b) as [Hfa Hfb].
    assert ((f <$> balls st) !! i = Some (f a)) as Hfi
      by (rewrite list_lookup_fmap, Hi; reflexivity).
    assert ((f <$> balls st) !! j = Some (f b)) as Hfj
      by (rewrite list_lookup_fmap, Hj; reflexivity).
    rewrite (fmap_insert_same f _ i a).
    + rewrite (fmap_insert_same f _ j b).
      * apply (fmap_insert_same f _ i a); assumption.
      * rewrite (fmap_insert_same f _ i a) by assumption. exact Hfj.
      * exact Hfb.
    + rewrite (fmap_insert_same f _ j b).
      * rewrite (fmap_insert_same f _ i a) by assumption. exact Hfi.
      * rewrite (fmap_insert_same f _ i a) by assumption. exact Hfj.
      * exact Hfb.
    + rewrite Ha. exact Hfa.
  - apply (fmap_insert_same f _ i a).
    + rewrite list_lookup_fmap, Hi. reflexivity.
    + apply Ha.
Qed.

End FrameFacts.

Lemma render_keeps {D : Type} `{Double D} (amnt : nat) (st : state D) :
  (amnt <= length (balls st))%nat ->
  exists st' evs,
    renderBalls amnt st = Some (st', evs) /\
    length (balls st') = length (balls st) /\
    radius <$> balls st' = radius <$> balls st /\
    subspaces <$> balls st' = subspaces <$> balls st.
Proof.
  intros Hlen.
  destruct (render_from_invariant amnt
              (fun _ s => radius <$> balls s = radius <$> balls st /\
                          subspaces <$> balls s = subspaces <$> balls st))
    with (n := amnt) (k := 0%nat) (st := st)
    as (st' & evs & Hr & Hl & Hrad & Hsub); try lia; try (split; reflexivity).
  - intros i s s' evs _ _ [Hrad Hsub] Hout. split.
    + rewrite <- Hrad. apply (body_outcome_keeps radius amnt i s s' evs).
      * intros a b. split; reflexivity.
      * intros a. apply advance_keeps.
      * exact Hout.
    + rewrite <- Hsub. apply (body_outcome_keeps subspaces amnt i s s' evs).
      * intros a b. split; reflexivity.
      * intros a. apply advance_keeps.
      * exact Hout.
  - exists st', evs. repeat split; assumption.
Qed.

(** A frame changes neither the number of balls nor the radius or the
    subspace indices of any ball: the indices that [renderBalls] prints
    are those [makeBall] computed. *)
Theorem renderBalls_keeps_radii {D : Type} `{Double D} (amnt : nat) (st : state D) :
  (amnt <= length (balls st))%nat ->
  exists st' evs,
    renderBalls amnt st = Some (st', evs) /\
    length (balls st') = length (balls st) /\
    radius <$> balls st' = radius <$> balls st /\
    subspaces <$> balls st' = subspaces <$> balls st.
Proof. exact (render_keeps amnt st). Qed.

Lemma renderBalls_keeps_radii_witness :
  (2 <= length (balls touching))%nat /\
  exists st' evs,
    renderBalls 2 touching = Some (st', evs) /\
    length (balls st') = length (balls touching) /\
    radius <$> balls st' = radius <$> balls touching /\
    subspaces <$> balls st' = subspaces <$> balls touching.
Proof.
  assert (2 <= length (balls touching))%nat as Hlen by (cbn; lia).
  split; [exact Hlen|]. exact (renderBalls_keeps_radii 2 touching Hlen).
Defined.

(** [in_arena] looks at the position and the radius only. *)
Lemma in_arena_bounce (a b : Ball float) :
  in_arena (fst (bounce a b)) = in_arena a /\ in_arena (snd (bounce a b)) = in_arena b.
Proof. split; reflexivity. Qed.

Lemma render_settles (bs : list (Ball float)) (c : color) :
  Forall (fun a => (0 <= radius a <= 599)%Z) bs ->
  exists st' evs,
    renderBalls (length bs) (mkState bs c) = Some (st', evs) /\
    length (balls st') = length bs /\
    Forall (fun a => in_arena a = true) (balls st').
Proof.
  intros Hrad.
  destruct (render_from_invariant (length bs)
              (fun k s => Forall (fun a => (0 <= radius a <= 599)%Z) (balls s) /\
                          forall m a, (m < k)%nat -> balls s !! m = Some a ->
                                      in_arena a = true))
    with (n := length bs) (k := 0%nat) (st := mkState bs c)
    as (st' & evs & Hr & Hl & _ & Hin); try (cbn [balls]; lia).
  - intros i s s' evs Hi Hlen [Hrs Hins] (a & Ha & Hcase).
    assert (0 <= radius a <= 599)%Z as Hra
      by (exact (proj1 (Forall_lookup _ _) Hrs i a Ha)).
    pose proof (lookup_lt_Some _ _ _ Ha) as Hil.
    destruct Hcase as [(j & b & Hj & (Hji & _) & Hb & E) | [_ E]];
      injection E as -> _; cbn [balls].
    + assert (0 <= radius b <= 599)%Z as Hrb
        by (exact (proj1 (Forall_lookup _ _) Hrs j b Hb)).
      split.
      * repeat apply Forall_insert; try assumption.
        rewrite (proj1 (advance_keeps _)). exact Hra.
      * intros m a0 Hm Hlook.
        destruct (decide (m = i)) as [->|Hmi].
        -- rewrite list_lookup_insert_eq in Hlook by (rewrite !length_insert; lia).
           injection Hlook as <-. apply bounceWall_lands. exact Hra.
        -- rewrite list_lookup_insert_ne in Hlook by (intros ->; apply Hmi; reflexivity).
           destruct (decide (m = j)) as [->|Hmj].
           ++ rewrite list_lookup_insert_eq in Hlook
                by (rewrite length_insert; apply (lookup_lt_Some _ _ _ Hb)).
              injection Hlook as <-.
              apply (eq_trans (proj2 (in_arena_bounce a b))).
              apply (Hins j b); [lia|exact Hb].
           ++ rewrite !list_lookup_insert_ne in Hlook
                by (intros ->; first [apply Hmi; reflexivity | apply Hmj; reflexivity]).
              apply (Hins m a0); [lia|exact Hlook].
    + split.
      * apply Forall_insert; [exact Hrs|].
        rewrite (proj1 (advance_keeps _)). exact Hra.
      * intros m a0 Hm Hlook.
        destruct (decide (m = i)) as [->|Hmi].
        -- rewrite list_lookup_insert_eq in Hlook by lia.
           injection Hlook as <-. apply bounceWall_lands.
           unfold moveBall. exact Hra.
        -- rewrite list_lookup_insert_ne in Hlook by (intros ->; apply Hmi; reflexivity).
           apply (Hins m a0); [lia|exact Hlook].
  - split; [exact Hrad|]. intros m a Hm. lia.
  - exists st', evs. split; [exact Hr|]. split; [exact Hl|].
    apply Forall_lookup. intros m a Hlook.
    apply (Hin m a); [|exact Hlook].
    apply lookup_lt_Some in Hlook. cbn [balls] in Hl. lia.
Qed.

(** * What a frame does once for each body *)

Section EventFacts.
Context {D : Type} `{Double D}.
Implicit Types (st : state D).

Lemma count_bounces_app (evs1 evs2 : list event) :
  count_bounces (evs1 ++ evs2) = (count_bounces evs1 + count_bounces evs2)%nat.
Proof.
  induction evs1 as [|e evs1 IH]; [reflexivity|].
  destruct e; cbn [app count_bounces]; rewrite IH; reflexivity.
Qed.

Lemma steps_app (evs1 evs2 : list event) :
  moved (evs1 ++ evs2) = moved evs1 ++ moved evs2 /\
  reflected (evs1 ++ evs2) = reflected evs1 ++ reflected evs2 /\
  drawn (evs1 ++ evs2) = drawn evs1 ++ drawn evs2.
Proof. unfold moved, reflected, drawn. rewrite !omap_app. repeat split. Qed.

Lemma no_step_in_misses (i : nat) (js : list nat) :
  moved (misses i js) = [] /\ reflected (misses i js) = [] /\ drawn (misses i js) = [].
Proof. induction js as [|j js IH]; [repeat split|exact IH]. Qed.

(** The events of one body hold one draw, one move and one reflection,
    of that body, and at most one call of the resolver. *)
Lemma body_outcome_events (amnt i : nat) st st' evs :
  body_outcome amnt i st (st', evs) ->
  moved evs = [i] /\ reflected evs = [i] /\ fst <$> drawn evs = [i] /\
  (count_bounces evs <= 1)%nat.
Proof.
  intros Hout. pose proof (body_outcome_bounces amnt i st st' evs Hout) as Hc.
  destruct Hout as (a & _ & [(j & b & _ & _ & _ & E) | [_ E]]);
    injection E as _ ->;
    match goal with
    | |- context [misses i ?js ++ ?rest] =>
        destruct (steps_app (misses i js) rest) as (-> & -> & ->);
        destruct (no_step_in_misses i js) as (-> & -> & ->)
    end;
    repeat split; assumption.
Qed.

Lemma render_from_events (amnt : nat) :
  forall n k st,
    (k + n = amnt)%nat -> (amnt <= length (balls st))%nat ->
    exists st' evs,
      render_from amnt (seq k n) st = Some (st', evs) /\
      moved evs = seq k n /\ reflected evs = seq k n /\
      fst <$> drawn evs = seq k n /\ (count_bounces evs <= n)%nat.
Proof.
  induction n as [|n IH]; intros k st Hk Hlen.
  - exists st, []. repeat split. cbn. lia.
  - destruct (render_one_spec amnt k st Hlen ltac:(lia)) as ([st1 evs1] & Hr & Hout).
    pose proof (render_one_length amnt k st st1 evs1 Hlen ltac:(lia) Hr) as Hlen1.
    destruct (body_outcome_events amnt k st st1 evs1 Hout) as (Hm1 & Hr1 & Hd1 & Hc1).
    destruct (IH (S k) st1 ltac:(lia) ltac:(lia))
      as (st' & evs & Hrest & Hm & Hre & Hd & Hc).
    exists st'. eexists. split.
    { cbn [seq render_from]. rewrite Hr. cbn [mbind option_bind].
      rewrite Hrest. reflexivity. }
    destruct (steps_app evs1 evs) as (-> & -> & ->).
    rewrite fmap_app, count_bounces_app, Hm1, Hr1, Hd1, Hm, Hre, Hd.
    repeat split. lia.
Qed.

End EventFacts.

(** In a frame every body is drawn once, moved once and reflected off
    the walls once, in index order, whether it collided or not, and the
    resolver is called at most once for each body. *)
Theorem renderBalls_once_each {D : Type} `{Double D} (amnt : nat) (st : state D) :
  (amnt <= length (balls st))%nat ->
  exists st' evs,
    renderBalls amnt st = Some (st', evs) /\
    fst <$> drawn evs = seq 0 amnt /\
    moved evs = seq 0 amnt /\
    reflected evs = seq 0 amnt /\
    (count_bounces evs <= amnt)%nat.
Proof.
  intros Hlen.
  destruct (render_from_events amnt amnt 0 st eq_refl Hlen)
    as (st' & evs & Hr & Hm & Hre & Hd & Hc).
  exists st', evs. repeat split; assumption.
Qed.

Lemma renderBalls_once_each_witness :
  (2 <= length (balls touching))%nat /\
  exists st' evs,
    renderBalls 2 touching = Some (st', evs) /\
    fst <$> drawn evs = seq 0 2 /\
    moved evs = seq 0 2 /\
    reflected evs = seq 0 2 /\
    (count_bounces evs <= 2)%nat.
Proof.
  assert (2 <= length (balls touching))%nat as Hlen by (cbn; lia).
  split; [exact Hlen|]. exact (renderBalls_once_each 2 touching Hlen).
Defined.

(** * The frames of [main] *)

Section LoopFacts.
Context {D : Type} `{Double D}.

Lemma frame_spec (amnt : nat) (bs : list (Ball D)) :
  (amnt <= length bs)%nat ->
  exists bs' evs,
    frame amnt bs = Some (bs', evs) /\
    length bs' = length bs /\
    radius <$> bs' = radius <$> bs /\ subspaces <$> bs' = subspaces <$> bs /\
    moved evs = seq 0 amnt /\ (count_bounces evs <= amnt)%nat.
Proof.
  intros Hlen.
  destruct (render_keeps amnt (mkState bs black) Hlen)
    as (st' & evs & Hr & Hl & Hrad & Hsub).
  destruct (render_from_events amnt amnt 0 (mkState bs black) eq_refl Hlen)
    as (st'' & evs' & Hr' & Hm & _ & _ & Hc).
  unfold renderBalls in Hr. rewrite Hr in Hr'. injection Hr' as <- <-.
  exists (balls st'), evs. unfold frame, renderBalls. rewrite Hr.
  repeat split; assumption.
Qed.

Lemma frames_spec (amnt : nat) :
  forall (n : nat) (bs : list (Ball D)),
    (amnt <= length bs)%nat ->
    exists bs' evs,
      frames n amnt bs = Some (bs', evs) /\
      length bs' = length bs /\
      radius <$> bs' = radius <$> bs /\ subspaces <$> bs' = subspaces <$> bs /\
      moved evs = concat (replicate n (seq 0 amnt)) /\
      (count_bounces evs <= n * amnt)%nat.
Proof.
  induction n as [|n IH]; intros bs Hlen.
  - exists bs, []. repeat split. cbn. lia.
  - destruct (frame_spec amnt bs Hlen) as (bs1 & evs1 & Hf & Hl1 & Hr1 & Hs1 & Hm1 & Hc1).
    destruct (IH bs1 ltac:(lia)) as (bs2 & evs2 & Hfs & Hl2 & Hr2 & Hs2 & Hm2 & Hc2).
    exists bs2, (evs1 ++ evs2). split.
    { cbn [frames]. rewrite Hf. cbn [mbind option_bind]. rewrite Hfs. reflexivity. }
    destruct (steps_app evs1 evs2) as (-> & _ & _).
    rewrite count_bounces_app, Hm1, Hm2.
    repeat split; try congruence; try lia.
Qed.

(** A single ball: no test is made and the colour is not set. *)
Lemma frame_single (a : Ball D) :
  frame 1 [a] = Some ([advance a], [EDraw 0 black; EPrint 0; EMove 0; EBounceWall 0]).
Proof. reflexivity. Qed.

End LoopFacts.

(** Any number of frames of [main] keeps the number of balls, the
    radius and the subspace indices of every ball; in [n] frames every
    body is moved [n] times, and the resolver is called at most
    [n * amnt] times. *)
Theorem frames_keep_radii {D : Type} `{Double D} (n amnt : nat) (bs : list (Ball D)) :
  (amnt <= length bs)%nat ->
  exists bs' evs,
    frames n amnt bs = Some (bs', evs) /\
    length bs' = length bs /\
    radius <$> bs' = radius <$> bs /\ subspaces <$> bs' = subspaces <$> bs /\
    moved evs = concat (replicate n (seq 0 amnt)) /\
    (count_bounces evs <= n * amnt)%nat.
Proof. exact (frames_spec amnt n bs). Qed.

Lemma frames_keep_radii_witness :
  (2 <= length apart)%nat /\
  exists bs' evs,
    frames 3 2 apart = Some (bs', evs) /\
    length bs' = length apart /\
    radius <$> bs' = radius <$> apart /\ subspaces <$> bs' = subspaces <$> apart /\
    moved evs = concat (replicate 3 (seq 0 2)) /\
    (count_bounces evs <= 3 * 2)%nat.
Proof.
  assert (2 <= length apart)%nat as Hlen by (cbn; lia).
  split; [exact Hlen|]. exact (frames_keep_radii 3 2 apart Hlen).
Defined.

(** With a single ball no overlap is tested and the draw colour is never
    set: in every frame the ball is drawn in black, the colour to which
    [main] has just cleared the screen, and it is moved and reflected. *)
Theorem frames_single_ball_black {D : Type} `{Double D} (n : nat) (a : Ball D) :
  exists evs,
    frames n 1 [a] = Some ([Nat.iter n advance a], evs) /\
    drawn evs = replicate n (0%nat, black) /\
    count_bounces evs = 0%nat.
Proof.
  revert a. induction n as [|n IH]; intros a.
  - exists []. repeat split.
  - destruct (IH (advance a)) as (evs & Hf & Hd & Hc).
    eexists. split; [|split].
    + cbn [frames]. rewrite frame_single. cbn [mbind option_bind].
      rewrite Hf. cbn [mbind option_bind].
      rewrite Nat.iter_succ_r. reflexivity.
    + destruct (steps_app [EDraw 0 black; EPrint 0; EMove 0; EBounceWall 0] evs)
        as (_ & _ & ->).
      rewrite Hd. reflexivity.
    + cbn [app count_bounces]. exact Hc.
Qed.

(** * Frames and the arena *)

Section NoBounce.
Context {D : Type} `{Double D}.

(** A property of the state that every body carries one step further
    when it is only moved and reflected holds after a frame that did not
    call the resolver. *)
Lemma render_from_no_bounce (amnt : nat) (P : nat -> state D -> Prop) :
  (forall i s a c, (i < amnt)%nat -> P i s -> balls s !! i = Some a ->
     P (S i) (mkState (<[i := advance a]> (balls s)) c)) ->
  forall n k st st' evs,
    (k + n = amnt)%nat -> (amnt <= length (balls st))%nat -> P k st ->
    render_from amnt (seq k n) st = Some (st', evs) ->
    count_bounces evs = 0%nat -> P amnt st'.
Proof.
  intros Hstep. induction n as [|n IH]; intros k st st' evs Hk Hlen HP Hr Hc.
  - cbn in Hr. injection Hr as <- <-. replace amnt with k by lia. exact HP.
  - cbn [seq render_from] in Hr.
    destruct (render_one_spec amnt k st Hlen ltac:(lia)) as ([st1 evs1] & Hr1 & Hout).
    pose proof (render_one_length amnt k st st1 evs1 Hlen ltac:(lia) Hr1) as Hlen1.
    rewrite Hr1 in Hr. cbn [mbind option_bind] in Hr.
    destruct (render_from amnt (seq (S k) n) st1) as [[st2 evs2]|] eqn:Hr2;
      [|discriminate Hr].
    cbn [mbind option_bind] in Hr. injection Hr as <- <-.
    rewrite count_bounces_app in Hc.
    destruct Hout as (a & Ha & [(j & b & _ & _ & _ & E) | [_ E]]).
    + injection E as _ ->. rewrite count_bounces_misses in Hc. cbn in Hc. lia.
    + apply (IH (S k) st1 st2 evs2); [lia|lia| |exact Hr2|lia].
      injection E as -> _. apply Hstep; [lia|exact HP|exact Ha].
Qed.

End NoBounce.

(** A frame over finite balls that did not call the resolver leaves
    every ball inside the arena, and finite. *)
Lemma render_inside (bs : list (Ball float)) (c : color) st' evs :
  Forall (fun a => (0 <= radius a <= 599)%Z) bs ->
  Forall (fun a => finite_ball a = true) bs ->
  renderBalls (length bs) (mkState bs c) = Some (st', evs) ->
  count_bounces evs = 0%nat ->
  Forall (fun a => inside a = true) (balls st') /\
  Forall (fun a => finite_ball a = true) (balls st').
Proof.
  intros Hrad Hfin Hr Hc.
  pose proof (render_from_no_bounce (length bs)
                (fun k s => length (balls s) = length bs /\
                            Forall (fun a => (0 <= radius a <= 599)%Z) (balls s) /\
                            Forall (fun a => finite_ball a = true) (balls s) /\
                            forall m a, (m < k)%nat -> balls s !! m = Some a ->
                                        inside a = true)) as Hinv.
  destruct (Hinv) with (n := length bs) (k := 0%nat) (st := mkState bs c)
                       (st' := st') (evs := evs)
    as (Hl & _ & Hf & Hin); try (cbn [balls]; lia); try assumption.
  - intros i s a c0 Hi (Hl & Hrs & Hfs & Hins) Ha. cbn [balls].
    assert (0 <= radius a <= 599)%Z as Hra
      by (exact (proj1 (Forall_lookup _ _) Hrs i a Ha)).
    assert (finite_ball a = true) as Hfa
      by (exact (proj1 (Forall_lookup _ _) Hfs i a Ha)).
    destruct (advance_inside a Hra Hfa) as [Hia Hfa'].
    split; [rewrite length_insert; exact Hl|]. split; [|split].
    + apply Forall_insert; [exact Hrs|].
      rewrite (proj1 (advance_keeps _)). exact Hra.
    + apply Forall_insert; assumption.
    + intros m a0 Hm Hlook.
      destruct (decide (m = i)) as [->|Hmi].
      * rewrite list_lookup_insert_eq in Hlook by (apply (lookup_lt_Some _ _ _ Ha)).
        injection Hlook as <-. exact Hia.
      * rewrite list_lookup_insert_ne in Hlook by (intros ->; apply Hmi; reflexivity).
        apply (Hins m a0); [lia|exact Hlook].
  - cbn [balls]. split; [reflexivity|]. split; [exact Hrad|]. split; [exact Hfin|].
    intros m a Hm. lia.
  - split; [|exact Hf].
    apply Forall_lookup. intros m a Hlook. apply (Hin m a); [|exact Hlook].
    apply lookup_lt_Some in Hlook. lia.
Qed.

(** After a frame every ball lies inside the arena or is lost. *)
Lemma render_lands (bs : list (Ball float)) (c : color) :
  Forall (fun a => (0 <= radius a <= 599)%Z) bs ->
  exists st' evs,
    renderBalls (length bs) (mkState bs c) = Some (st', evs) /\
    length (balls st') = length bs /\
    Forall (fun a => (0 <= radius a <= 599)%Z) (balls st') /\
    Forall inside_or_lost (balls st').
Proof.
  intros Hrad.
  destruct (render_settles bs c Hrad) as (st' & evs & Hr & Hl & Hin).
  destruct (render_keeps (length bs) (mkState bs c) (le_n _))
    as (st'' & evs' & Hr' & _ & Hradii & _).
  rewrite Hr in Hr'. injection Hr' as <- <-.
  cbn [balls] in Hradii.
  assert (Forall (fun a => (0 <= radius a <= 599)%Z) (balls st')) as Hrad'.
  { assert (Forall (fun r => (0 <= r <= 599)%Z) (radius <$> balls st')) as Hrs
      by (rewrite Hradii; apply Forall_fmap; exact Hrad).
    apply Forall_fmap in Hrs. exact Hrs. }
  exists st', evs. split; [exact Hr|]. split; [exact Hl|]. split; [exact Hrad'|].
  apply Forall_lookup. intros m a Hlook.
  apply in_arena_inside_or_lost.
  - exact (proj1 (Forall_lookup _ _) Hrad' m a Hlook).
  - exact (proj1 (Forall_lookup _ _) Hin m a Hlook).
Qed.

(** After a frame over all the balls, of radius 0 to 599 each, every
    ball lies inside the arena on each axis, both edges tested, unless
    its coordinate on that axis is not a number, wherever the balls were
    before and whatever collisions the frame resolved; and if the balls
    were finite and the frame did not call the resolver, every ball lies
    inside the arena. *)
Theorem renderBalls_in_arena (bs : list (Ball float)) (c : color) :
  Forall (fun a => (0 <= radius a <= 599)%Z) bs ->
  exists st' evs,
    renderBalls (length bs) (mkState bs c) = Some (st', evs) /\
    length (balls st') = length bs /\
    Forall inside_or_lost (balls st') /\
    (count_bounces evs = 0%nat -> Forall (fun a => finite_ball a = true) bs ->
     Forall (fun a => inside a = true) (balls st')).
Proof.
  intros Hrad.
  destruct (render_lands bs c Hrad) as (st' & evs & Hr & Hl & _ & Hin).
  exists st', evs. split; [exact Hr|]. split; [exact Hl|]. split; [exact Hin|].
  intros Hc Hfin. exact (proj1 (render_inside bs c st' evs Hrad Hfin Hr Hc)).
Qed.

Lemma renderBalls_in_arena_witness :
  Forall (fun a => (0 <= radius a <= 599)%Z) wall_and_free /\
  inside at_right_wall = false /\
  exists st' evs,
    renderBalls (length wall_and_free) (mkState wall_and_free black)
    = Some (st', evs) /\
    length (balls st') = length wall_and_free /\
    Forall inside_or_lost (balls st') /\
    count_bounces evs = 0%nat /\
    Forall (fun a => inside a = true) (balls st').
Proof.
  assert (Forall (fun a => (0 <= radius a <= 599)%Z) wall_and_free)
    as Hrad by (repeat constructor; cbn; lia).
  split; [exact Hrad|]. split; [reflexivity|].
  destruct (renderBalls_in_arena wall_and_free black Hrad)
    as (st' & evs & Hr & Hl & Hin & Hpos).
  exists st', evs. split; [exact Hr|]. split; [exact Hl|]. split; [exact Hin|].
  assert (count_bounces evs = 0%nat) as Hc.
  { vm_compute in Hr. injection Hr as _ <-. reflexivity. }
  split; [exact Hc|]. apply Hpos; [exact Hc|].
  repeat constructor.
Defined.

(** The other case is met: two balls at one pixel are both lost after
    the frame that resolves their collision. *)
Lemma renderBalls_at_one_pixel :
  exists st' evs,
    renderBalls 2 (mkState at_one_pixel black) = Some (st', evs) /\
    count_bounces evs = 1%nat /\
    Forall lost (balls st') /\
    Forall (fun a => inside a = false) (balls st').
Proof.
  eexists. eexists. split; [vm_compute; reflexivity|].
  split; [reflexivity|]. split; repeat constructor.
Qed.

(** One turn of the loop of [main], with what it keeps. *)
Lemma frame_lands (bs : list (Ball float)) :
  Forall (fun a => (0 <= radius a <= 599)%Z) bs ->
  exists bs' evs,
    frame (length bs) bs = Some (bs', evs) /\
    length bs' = length bs /\
    Forall (fun a => (0 <= radius a <= 599)%Z) bs' /\
    Forall inside_or_lost bs' /\
    (count_bounces evs = 0%nat -> Forall (fun a => finite_ball a = true) bs ->
     Forall (fun a => inside a = true) bs' /\
     Forall (fun a => finite_ball a = true) bs').
Proof.
  intros Hrad.
  destruct (render_lands bs black Hrad) as (st' & evs & Hr & Hl & Hrad' & Hin).
  exists (balls st'), evs. unfold frame. rewrite Hr.
  split; [reflexivity|]. split; [exact Hl|]. split; [exact Hrad'|].
  split; [exact Hin|].
  intros Hc Hfin. exact (render_inside bs black st' evs Hrad Hfin Hr Hc).
Qed.

Lemma frames_land (n : nat) :
  forall bs : list (Ball float),
    Forall (fun a => (0 <= radius a <= 599)%Z) bs ->
    exists bs' evs,
      frames (S n) (length bs) bs = Some (bs', evs) /\
      length bs' = length bs /\
      Forall inside_or_lost bs' /\
      (count_bounces evs = 0%nat -> Forall (fun a => finite_ball a = true) bs ->
       Forall (fun a => inside a = true) bs' /\
       Forall (fun a => finite_ball a = true) bs').
Proof.
  induction n as [|n IH]; intros bs Hrad;
    destruct (frame_lands bs Hrad) as (bs1 & evs1 & Hf & Hl1 & Hrad1 & Hin1 & Hpos1).
  - exists bs1, (evs1 ++ []). split; [|split; [exact Hl1|split; [exact Hin1|]]].
    + cbn [frames]. rewrite Hf. reflexivity.
    + rewrite app_nil_r. exact Hpos1.
  - destruct (IH bs1 Hrad1) as (bs2 & evs2 & Hfs & Hl2 & Hin2 & Hpos2).
    exists bs2, (evs1 ++ evs2).
    split; [|split; [lia|split; [exact Hin2|]]].
    + rewrite Hl1 in Hfs.
      change (frames (S (S n)) (length bs) bs)
        with ('(b1, e1) ← frame (length bs) bs;
              '(b2, e2) ← frames (S n) (length bs) b1; Some (b2, e1 ++ e2)).
      rewrite Hf. cbn [mbind option_bind]. rewrite Hfs. reflexivity.
    + intros Hc Hfin. rewrite count_bounces_app in Hc.
      apply Hpos2; [lia|]. apply Hpos1; [lia|exact Hfin].
Qed.

(** After one turn of the loop of [main] or more, over balls of radius
    0 to 599, every ball lies inside the arena on each axis, both edges
    tested, unless its coordinate on that axis is not a number; and if
    the balls were finite and the resolver was never called, every ball
    lies inside the arena and is finite. *)
Theorem frames_in_arena (n : nat) (bs : list (Ball float)) :
  Forall (fun a => (0 <= radius a <= 599)%Z) bs ->
  exists bs' evs,
    frames (S n) (length bs) bs = Some (bs', evs) /\
    length bs' = length bs /\
    Forall inside_or_lost bs' /\
    (count_bounces evs = 0%nat -> Forall (fun a => finite_ball a = true) bs ->
     Forall (fun a => inside a = true) bs' /\
     Forall (fun a => finite_ball a = true) bs').
Proof. exact (frames_land n bs). Qed.

Lemma frames_in_arena_witness :
  Forall (fun a => (0 <= radius a <= 599)%Z) wall_and_free /\
  inside at_right_wall = false /\
  exists bs' evs,
    frames 3 (length wall_and_free) wall_and_free = Some (bs', evs) /\
    length bs' = length wall_and_free /\
    Forall inside_or_lost bs' /\
    count_bounces evs = 0%nat /\
    Forall (fun a => inside a = true) bs'.
Proof.
  assert (Forall (fun a => (0 <= radius a <= 599)%Z) wall_and_free)
    as Hrad by (repeat constructor; cbn; lia).
  split; [exact Hrad|]. split; [reflexivity|].
  destruct (frames_in_arena 2 wall_and_free Hrad)
    as (bs' & evs & Hf & Hl & Hin & Hpos).
  exists bs', evs. split; [exact Hf|]. split; [exact Hl|]. split; [exact Hin|].
  assert (count_bounces evs = 0%nat) as Hc.
  { vm_compute in Hf. injection Hf as _ <-. reflexivity. }
  split; [exact Hc|]. apply Hpos; [exact Hc|].
  repeat constructor.
Defined.

(** * The dot product *)

(** [dot] gives the same number with its arguments exchanged. *)
Theorem dot_comm (v1 v2 : vec2 float) : dot v1 v2 = dot v2 v1.
Proof.
  unfold dot. cbn [dmul Double_binary64].
  rewrite (Binary64Laws.mul_comm (x v1) (x v2)), (Binary64Laws.mul_comm (y v1) (y v2)).
  reflexivity.
Qed.

(** * The collision resolver in exact arithmetic *)

Section ExactBounce.
Local Open Scope R_scope.

(** The velocities after [bounce], from the unit normal [n] and the
    scalar [s] of the impulse. *)
Lemma bounce_exact (a b : Ball R) :
  let n := norm (centre_line a b) in
  let s := x (dir a) * x n + y (dir a) * y n - (x (dir b) * x n + y (dir b) * y n) in
  dir (fst (bounce a b)) = mkVec2 (x (dir a) - s * x n) (y (dir a) - s * y n) /\
  dir (snd (bounce a b)) = mkVec2 (x (dir b) + s * x n) (y (dir b) + s * y n).
Proof. split; reflexivity. Qed.

(** The normal of [b], [a] is the opposite of the normal of [a], [b]. *)
Lemma normal_swap (a b : Ball R) :
  x (norm (centre_line b a)) = - x (norm (centre_line a b)) /\
  y (norm (centre_line b a)) = - y (norm (centre_line a b)).
Proof.
  unfold centre_line, norm, magnitude, pow2, set_x, set_y.
  cbn [x y dsub dmul dadd ddiv dsqrt Double_R].
  replace ((x (pos a) - x (pos b)) * (x (pos a) - x (pos b))
           + (y (pos a) - y (pos b)) * (y (pos a) - y (pos b)))
    with ((x (pos b) - x (pos a)) * (x (pos b) - x (pos a))
          + (y (pos b) - y (pos a)) * (y (pos b) - y (pos a))) by ring.
  unfold Rdiv. split; ring.
Qed.

End ExactBounce.

(** In exact real arithmetic [bounce] is elastic: for two balls with
    distinct centres the kinetic energy of the pair after the call is
    the one before it. *)
Theorem bounce_conserves_energy_exact (a b : Ball R) :
  pos a <> pos b ->
  kinetic (fst (bounce a b)) (snd (bounce a b)) = kinetic a b.
Proof.
  intros Hne. pose proof (normal_unit a b Hne) as Hu.
  destruct (bounce_exact a b) as [Ha Hb]. cbv zeta in Ha, Hb.
  unfold kinetic, dot. rewrite Ha, Hb. cbn [x y dadd dmul Double_R].
  cbn [dadd dmul Double_R] in Hu.
  set (nx := x (norm (centre_line a b))) in *.
  set (ny := y (norm (centre_line a b))) in *.
  set (s := (x (dir a) * nx + y (dir a) * ny - (x (dir b) * nx + y (dir b) * ny))%R).
  transitivity (x (dir a) * x (dir a) + y (dir a) * y (dir a)
                + (x (dir b) * x (dir b) + y (dir b) * y (dir b))
                + 2 * s * s * (nx * nx + ny * ny - 1))%R.
  - unfold s. ring.
  - rewrite Hu. ring.
Qed.

Lemma bounce_conserves_energy_exact_witness :
  pos exact_a <> pos exact_b /\
  kinetic (fst (bounce exact_a exact_b)) (snd (bounce exact_a exact_b))
    = kinetic exact_a exact_b.
Proof.
  assert (pos exact_a <> pos exact_b) as Hne.
  { unfold exact_a, exact_b. cbn [pos]. intros E.
    apply (f_equal x) in E. cbn [x] in E. lra. }
  split; [exact Hne|]. exact (bounce_conserves_energy_exact exact_a exact_b Hne).
Defined.

(** In exact real arithmetic, for two balls with distinct centres,
    [bounce] reverses the velocity of [a] relative to [b] along the
    normal, whatever its sign, so that two overlapping balls that were
    moving apart are turned towards each other; along the tangent the
    velocity of each ball is kept. *)
Theorem bounce_reverses_normal_exact (a b : Ball R) :
  pos a <> pos b ->
  let n := norm (centre_line a b) in
  let t := mkVec2 (- y n)%R (x n) in
  (dot (dir (fst (bounce a b))) n - dot (dir (snd (bounce a b))) n
   = - (dot (dir a) n - dot (dir b) n))%R /\
  dot (dir (fst (bounce a b))) t = dot (dir a) t /\
  dot (dir (snd (bounce a b))) t = dot (dir b) t.
Proof.
  intros Hne n t. pose proof (normal_unit a b Hne) as Hu.
  destruct (bounce_exact a b) as [Ha Hb]. cbv zeta in Ha, Hb.
  unfold dot, t. rewrite Ha, Hb. cbn [x y dadd dmul dsub Double_R].
  cbn [dadd dmul Double_R] in Hu. fold n in Hu |- *.
  set (nx := x n) in *. set (ny := y n) in *.
  set (s := (x (dir a) * nx + y (dir a) * ny - (x (dir b) * nx + y (dir b) * ny))%R).
  split; [|split]; try ring.
  transitivity (- s - 2 * s * (nx * nx + ny * ny - 1))%R.
  - unfold s. ring.
  - rewrite Hu. ring.
Qed.

Lemma bounce_reverses_normal_exact_witness :
  pos exact_a <> pos exact_b /\
  (dot (dir (fst (bounce exact_a exact_b))) (norm (centre_line exact_a exact_b))
   - dot (dir (snd (bounce exact_a exact_b))) (norm (centre_line exact_a exact_b))
   = - (dot (dir exact_a) (norm (centre_line exact_a exact_b))
        - dot (dir exact_b) (norm (centre_line exact_a exact_b))))%R.
Proof.
  assert (pos exact_a <> pos exact_b) as Hne.
  { unfold exact_a, exact_b. cbn [pos]. intros E.
    apply (f_equal x) in E. cbn [x] in E. lra. }
  split; [exact Hne|].
  exact (proj1 (bounce_reverses_normal_exact exact_a exact_b Hne)).
Defined.

(** In exact real arithmetic the order of the two balls does not
    matter: [bounce] of [b], [a] gives each ball what [bounce] of [a],
    [b] gives it. *)
Theorem bounce_swap_exact (a b : Ball R) :
  bounce b a = (snd (bounce a b), fst (bounce a b)).
Proof.
  assert (dir (fst (bounce b a)) = dir (snd (bounce a b)) /\
          dir (snd (bounce b a)) = dir (fst (bounce a b))) as [H1 H2].
  { destruct (bounce_exact a b) as [Ha Hb]. destruct (bounce_exact b a) as [Hb' Ha'].
    cbv zeta in Ha, Hb, Ha', Hb'. rewrite Ha, Hb, Ha', Hb'.
    destruct (normal_swap a b) as [-> ->].
    split; f_equal; ring. }
  destruct a as [ra pa va sa], b as [rb pb vb sb].
  unfold bounce in *. cbn [fst snd dir set_dir pos radius subspaces] in *.
  rewrite H1, H2. reflexivity.
Qed.
